(** * LexiconAI: the word-analysis orchestration path

    A shallow embedding of
      - [src/services/linguistic/service.py]   (LinguisticService.analyze_word)
      - [src/services/linguistic/graph.py]     (process_analysis, app_graph)
      - [src/services/linguistic/chains.py]    (analyze_word)
      - [src/infrastructure/repositories/*.py] (get_by_word, upsert, create)
      - [src/core/validators.py], [src/core/schemas.py], [src/core/exceptions/base.py]
      - the three channel entry points (web form, HTTP API, Telegram bot)
    together with the properties of the cache-aside workflow. *)

From Stdlib Require Import String Ascii.
From stdpp Require Import gmap list.

Local Open Scope N_scope.

(** ** Text

    A Python [str] is a sequence of Unicode code points. *)

Abbreviation codepoint := N (only parsing).
Abbreviation str := (list N) (only parsing).

(** String literals of the sources are written as UTF-8 byte strings and
    decoded to code points (one to three byte sequences, which covers the
    Basic Multilingual Plane used by the sources). *)
Fixpoint utf8_decode (bs : list N) : str :=
  match bs with
  | [] => []
  | b :: rest =>
      if b <? 0x80 then b :: utf8_decode rest
      else if b <? 0xE0 then
        match rest with
        | c :: rest' => ((b - 0xC0) * 64 + (c - 0x80)) :: utf8_decode rest'
        | [] => [b]
        end
      else
        match rest with
        | c :: d :: rest' =>
            ((b - 0xE0) * 4096 + (c - 0x80) * 64 + (d - 0x80)) :: utf8_decode rest'
        | _ => b :: rest
        end
  end.

Definition decode (s : string) : str :=
  utf8_decode (map N_of_ascii (list_ascii_of_string s)).

(** [py "text"] is the literal, decoded once where it is written. *)
Notation "'py' s" := (ltac:(let v := eval vm_compute in (decode s) in exact v))
  (at level 10, s at level 0, only parsing).

(** [str.isspace] of a single character: the Unicode white space that
    [str.strip()] removes and that [\s] matches in a [str] pattern. *)
Definition is_space (c : codepoint) : bool :=
  ((0x09 <=? c) && (c <=? 0x0D)) || ((0x1C <=? c) && (c <=? 0x20))
  || (c =? 0x85) || (c =? 0xA0) || (c =? 0x1680)
  || ((0x2000 <=? c) && (c <=? 0x200A))
  || (c =? 0x2028) || (c =? 0x2029) || (c =? 0x202F) || (c =? 0x205F)
  || (c =? 0x3000).

(** [str.lower] of a single character, for the Basic Latin, Latin-1 and
    Cyrillic capital letters; every other code point is kept.  The channels
    only let the alphabet of [WordValidator] through, for which this is the
    whole of Python's mapping. *)
Definition lower_char (c : codepoint) : codepoint :=
  if (0x41 <=? c) && (c <=? 0x5A) then c + 0x20
  else if (0xC0 <=? c) && (c <=? 0xDE) && negb (c =? 0xD7) then c + 0x20
  else if (0x400 <=? c) && (c <=? 0x40F) then c + 0x50
  else if (0x410 <=? c) && (c <=? 0x42F) then c + 0x20
  else c.

Definition lower (s : str) : str := map lower_char s.

Fixpoint lstrip (s : str) : str :=
  match s with
  | [] => []
  | c :: s' => if is_space c then lstrip s' else s
  end.

Definition rstrip (s : str) : str := rev (lstrip (rev s)).

Definition strip (s : str) : str := rstrip (lstrip s).

(** [word.strip().lower()]: the normal form used as cache key. *)
Definition normalize (word : str) : str := lower (strip word).

(** ** Exceptions ([src/core/exceptions/base.py])

    Only subclasses of [Exception] are modelled; task cancellation and the
    other [BaseException]-only classes are outside this development. *)

Inductive exc_class : Type :=
  | Exception
  | ValueError
  | PydanticValidationError     (* pydantic_core.ValidationError *)
  | SQLAlchemyError
  | AppError
  | InfrastructureError
  | DatabaseError
  | NotFoundError
  | ValidationError
  | ExternalAPIError
  | LinguisticError.

#[global] Instance exc_class_eq_dec : EqDecision exc_class.
Proof. solve_decision. Defined.

(** Method resolution order: the class itself followed by its bases. *)
Definition mro (c : exc_class) : list exc_class :=
  match c with
  | Exception => [Exception]
  | ValueError => [ValueError; Exception]
  | PydanticValidationError => [PydanticValidationError; ValueError; Exception]
  | SQLAlchemyError => [SQLAlchemyError; Exception]
  | AppError => [AppError; Exception]
  | InfrastructureError => [InfrastructureError; AppError; Exception]
  | DatabaseError => [DatabaseError; InfrastructureError; AppError; Exception]
  | NotFoundError => [NotFoundError; AppError; Exception]
  | ValidationError => [ValidationError; AppError; Exception]
  | ExternalAPIError => [ExternalAPIError; InfrastructureError; AppError; Exception]
  | LinguisticError => [LinguisticError; AppError; Exception]
  end.

Definition issubclass (c d : exc_class) : bool := bool_decide (d ∈ mro c).

(** A raised exception.  [message] is [str(e)]; for an [AppError] it is also
    [e.message], since [AppError.__init__] hands the message on to
    [Exception.__init__].  [details] is the [details] dictionary of an
    [AppError] (empty for the other classes). *)
Record exn : Type := Raise {
  exc_type : exc_class;
  message : str;
  details : list (str * str)
}.

Definition isinstance (e : exn) (c : exc_class) : bool := issubclass (exc_type e) c.

#[global] Arguments isinstance : simpl never.

(** ** Data model ([src/core/schemas.py], [src/infrastructure/db/models.py]) *)

Inductive ProcessingStatus : Type := PENDING | PROCESSING | COMPLETED | FAILED.

Inductive AssociationType : Type := SYNONYM | ANTONYM.

Definition AssociationType_value (t : AssociationType) : str :=
  match t with
  | SYNONYM => py "synonym"
  | ANTONYM => py "antonym"
  end.

Record WordAssociation : Type := {
  wa_word : str;
  wa_type : AssociationType
}.

(** One element of the stored [items] array: a JSON object with the string
    members [word] and [type]. *)
Record JsonItem : Type := {
  j_word : str;
  j_type : str
}.

(** The JSONB column: a dictionary from member names to item arrays. *)
Abbreviation Json := (gmap str (list JsonItem)) (only parsing).

(** [item.model_dump()] *)
Definition model_dump (item : WordAssociation) : JsonItem :=
  {| j_word := wa_word item; j_type := AssociationType_value (wa_type item) |}.

(** The constructor call [WordAssociation] on the members of [item]: the enum member is looked up by value and an
    unknown value is a validation error (a [ValueError] subclass). *)
Definition WordAssociation_validate (item : JsonItem) : exn + WordAssociation :=
  if decide (j_type item = py "synonym") then
    inr {| wa_word := j_word item; wa_type := SYNONYM |}
  else if decide (j_type item = py "antonym") then
    inr {| wa_word := j_word item; wa_type := ANTONYM |}
  else
    inl (Raise PydanticValidationError
           (py "1 validation error for WordAssociation: type: " ++ j_type item) []).

(** A row of [word_dictionary]; the surrogate id and [updated_at] play no
    part in the workflow and are left out. *)
Record WordDictionary : Type := {
  wd_word : str;
  wd_associations : gmap str (list JsonItem)
}.

(** A row of [request_history] (id and [created_at] left out). *)
Record RequestHistory : Type := {
  user_id : option N;
  source : str;
  original_text : str
}.

(** The structured answer of the language model ([AnalysisResponse]). *)
Record AnalysisResponse : Type := {
  is_exists : bool;
  synonyms : list str;
  antonyms : list str
}.

(** The dictionary returned by [LinguisticService.analyze_word]: its three
    members [result], [error] and [status]. *)
Record Response : Type := {
  result : option (list WordAssociation);
  error : option str;
  status : ProcessingStatus
}.

(** ** The world a request runs in

    [word_dictionary] is keyed by the column [word], which carries a unique
    index.  [llm_calls] records every word handed to the language-model
    chain, oldest first. *)
Record World : Type := {
  word_dictionary : gmap str (gmap str (list JsonItem));
  request_history : list RequestHistory;
  llm_calls : list str
}.

(** What the collaborators outside the repository do during one request:
    whether a given session operation raises, and what the chain answers.
    Each session operation happens at most once per request. *)
Record Env : Type := {
  select_exc : option exn;          (* session.execute(select ...) in get_by_word *)
  upsert_execute_exc : option exn;  (* session.execute(insert ...) in upsert *)
  upsert_commit_exc : option exn;   (* session.commit() in upsert *)
  create_commit_exc : option exn;   (* session.commit() in create *)
  create_refresh_exc : option exn;  (* session.refresh(instance) in create *)
  chain_ainvoke : str -> exn + AnalysisResponse   (* analysis_chain.ainvoke *)
}.

(** ** Effects: state threaded through code that may raise *)

Definition M (A : Type) : Type := World -> (exn + A) * World.

Definition raise {A} (e : exn) : M A := fun w => (inl e, w).

#[global] Instance M_ret : MRet M := fun A a w => (inr a, w).

#[global] Instance M_bind : MBind M := fun A B k m w =>
  match m w with
  | (inr a, w') => k a w'
  | (inl e, w') => (inl e, w')
  end.

(** An awaited external operation that raises when the environment says so. *)
Definition await (fault : option exn) : M unit :=
  match fault with
  | Some e => raise e
  | None => mret tt
  end.

Definition lift {A} (r : exn + A) : M A :=
  match r with
  | inl e => raise e
  | inr a => mret a
  end.

(** [try: body  except C1 as e: h1 e  except C2 as e: h2 e ...]: the first
    clause whose class the exception is an instance of handles it; with no
    such clause the exception propagates. *)
Fixpoint dispatch {A} (clauses : list (exc_class * (exn -> M A))) (e : exn)
    : option (M A) :=
  match clauses with
  | [] => None
  | (c, h) :: rest => if isinstance e c then Some (h e) else dispatch rest e
  end.

Definition try_except {A} (body : M A) (clauses : list (exc_class * (exn -> M A)))
    : M A :=
  fun w =>
    match body w with
    | (inr a, w') => (inr a, w')
    | (inl e, w') =>
        match dispatch clauses e with
        | Some h => h w'
        | None => (inl e, w')
        end
    end.

(** [for x in xs: ...] over a computation that may raise. *)
Fixpoint mapM {A B} (f : A -> exn + B) (xs : list A) : exn + list B :=
  match xs with
  | [] => inr []
  | x :: xs' =>
      match f x with
      | inl e => inl e
      | inr y =>
          match mapM f xs' with
          | inl e => inl e
          | inr ys => inr (y :: ys)
          end
      end
  end.

Definition get_world : M World := fun w => (inr w, w).

Definition modify (f : World -> World) : M unit := fun w => (inr tt, f w).

(** ** Repositories ([src/infrastructure/repositories])

    A repository method stages its change with [execute] or [add] and makes
    it durable with [commit]; nothing else happens in between, and a
    [rollback] drops what was staged.  So the tables below (the committed
    rows) change exactly when the commit has gone through. *)

Definition put_word (word : str) (associations : gmap str (list JsonItem)) (w : World)
    : World :=
  {| word_dictionary := <[word := associations]> (word_dictionary w);
     request_history := request_history w;
     llm_calls := llm_calls w |}.

Definition add_history (instance : RequestHistory) (w : World) : World :=
  {| word_dictionary := word_dictionary w;
     request_history := request_history w ++ [instance];
     llm_calls := llm_calls w |}.

Definition log_llm_call (word : str) (w : World) : World :=
  {| word_dictionary := word_dictionary w;
     request_history := request_history w;
     llm_calls := llm_calls w ++ [word] |}.

Module DictionaryRepository.

(** [select(model).where(model.word == word)], then [scalars().first()];
    no exception is translated here.  The row handed back is built from the
    table: it is the row as a session that did not hold it before loads it. *)
Definition get_by_word (env : Env) (word : str) : M (option WordDictionary) :=
  await (select_exc env);;
  w ← get_world;
  mret ((λ doc, {| wd_word := word; wd_associations := doc |})
          <$> word_dictionary w !! word).

(** [insert ... on_conflict_do_update(index_elements=[word],
    set_={"associations": associations}).returning(model)]; the statement
    returns its one row, which [scalars().one()] hands back.  The table is
    written when the commit goes through.  Two things are taken for granted:
    the row handed back carries the values just written, which is so for a
    session that did not hold the row before, and [session.rollback()] in
    the handler does not raise itself. *)
Definition upsert (env : Env) (word : str) (associations : gmap str (list JsonItem))
    : M WordDictionary :=
  try_except
    (await (upsert_execute_exc env);;
     await (upsert_commit_exc env);;
     modify (put_word word associations);;
     mret {| wd_word := word; wd_associations := associations |})
    [(SQLAlchemyError, λ e,
        (* session.rollback() *)
        raise (Raise DatabaseError (py "Ошибка при сохранении слова в БД")
                 [(py "error", message e)]))].

End DictionaryRepository.

Module HistoryRepository.

(** [BaseRepository.create], inherited, as the service calls it: with the
    keywords [source] and [original_text].  The record is written when the
    commit goes through; the refresh comes after it, and a rollback after a
    commit undoes nothing.  [session.rollback()] in the handler is taken not
    to raise itself. *)
Definition create (env : Env) (source original_text : str) : M RequestHistory :=
  try_except
    (let instance :=
       {| user_id := None; source := source; original_text := original_text |} in
     (* session.add(instance) *)
     await (create_commit_exc env);;
     modify (add_history instance);;
     await (create_refresh_exc env);;
     mret instance)
    [(SQLAlchemyError, λ e,
        (* session.rollback() *)
        raise (Raise DatabaseError (py "Ошибка при создании записи в БД")
                 [(py "error", message e)]))].

End HistoryRepository.

(** ** The generator ([chains.py], [graph.py]) *)

Module chains.

Definition analyze_word (env : Env) (word : str) : M (list WordAssociation) :=
  try_except
    (modify (log_llm_call word);;
     response ← lift (chain_ainvoke env word);
     if negb (is_exists response) then
       raise (Raise ValueError
                (py "Слово '" ++ word ++ py "' не найдено в русском языке.") [])
     else
       mret (map (λ syn, {| wa_word := syn; wa_type := SYNONYM |}) (synonyms response)
             ++ map (λ ant, {| wa_word := ant; wa_type := ANTONYM |}) (antonyms response)))
    [(ValueError, λ e, raise e);
     (Exception, λ e,
        raise (Raise ExternalAPIError (py "Ошибка при обращении к AI сервису")
                 [(py "error", message e); (py "word", word)]))].

End chains.

Module graph.

Record GraphState : Type := {
  gs_word : str;
  gs_result : option (list WordAssociation);
  gs_error : option str
}.

(** What the node returns: a dictionary with the single member [result] or
    the single member [error]. *)
Inductive StateUpdate : Type :=
  | UpdateResult (r : list WordAssociation)
  | UpdateError (e : str).

Definition process_analysis (env : Env) (state : GraphState) : M StateUpdate :=
  try_except
    (r ← chains.analyze_word env (gs_word state);
     mret (UpdateResult r))
    [(Exception, λ e, mret (UpdateError (message e)))].

(** The compiled graph has the single node [analyzer]; invoking it runs the
    node once and overwrites the members of the state the node returned. *)
Definition apply_update (state : GraphState) (u : StateUpdate) : GraphState :=
  match u with
  | UpdateResult r =>
      {| gs_word := gs_word state; gs_result := Some r; gs_error := gs_error state |}
  | UpdateError e =>
      {| gs_word := gs_word state; gs_result := gs_result state; gs_error := Some e |}
  end.

Definition ainvoke (env : Env) (inputs : GraphState) : M GraphState :=
  u ← process_analysis env inputs;
  mret (apply_update inputs u).

End graph.

(** ** The orchestrator ([service.py]) *)

(** Truth value of an optional string or list: [None] and the empty
    sequence are false. *)
Definition truthy {A} (x : option (list A)) : bool :=
  match x with
  | Some (_ :: _) => true
  | _ => false
  end.

Module LinguisticService.

Definition internal_error : str := py "Произошла внутренняя ошибка при анализе слова".

(** [{"word": word, "result": None, "error": None}] *)
Definition inputs (word : str) : graph.GraphState :=
  {| graph.gs_word := word; graph.gs_result := None; graph.gs_error := None |}.

(** [{"items": [item.model_dump() for item in result_data]}] *)
Definition json_data (result_data : list WordAssociation) : gmap str (list JsonItem) :=
  {[ py "items" := map model_dump result_data ]}.

(** The body of the [try] statement; [word] is already normalized. *)
Definition analyze_word_try (env : Env) (word source : str) : M Response :=
  cached_entry ← DictionaryRepository.get_by_word env word;
  match cached_entry with
  | Some entry =>
      let associations_data := default [] (wd_associations entry !! py "items") in
      associations ← lift (mapM WordAssociation_validate associations_data);
      HistoryRepository.create env source word;;
      mret {| result := Some associations; error := None; status := COMPLETED |}
  | None =>
      result_state ← graph.ainvoke env (inputs word);
      let result_data := graph.gs_result result_state in
      let error_data := graph.gs_error result_state in
      (if truthy result_data then
         DictionaryRepository.upsert env word (json_data (default [] result_data));;
         mret tt
       else mret tt);;
      HistoryRepository.create env source word;;
      mret {| result := result_data;
              error := error_data;
              status := if negb (truthy error_data) then COMPLETED else FAILED |}
  end.

Definition analyze_word (env : Env) (word source : str) : M Response :=
  let word := lower (strip word) in
  try_except
    (analyze_word_try env word source)
    [(ValueError, λ e,
        mret {| result := None; error := Some (message e); status := FAILED |});
     (AppError, λ e,
        mret {| result := None; error := Some (message e); status := FAILED |});
     (Exception, λ e,
        mret {| result := None; error := Some internal_error; status := FAILED |})].

End LinguisticService.

(** ** Input validation ([validators.py]) *)

Module WordValidator.

(** The character class of [_CYRILLIC_PATTERN]: а-я, ё, А-Я, Ё, white space
    and the hyphen. *)
Definition cyrillic_char (c : codepoint) : bool :=
  ((0x430 <=? c) && (c <=? 0x44F)) || (c =? 0x451)
  || ((0x410 <=? c) && (c <=? 0x42F)) || (c =? 0x401)
  || is_space c || (c =? 0x2D).

(** The pattern is anchored at both ends and repeats the class one or more
    times, so it matches exactly the non-empty texts made of such
    characters. *)
Definition is_cyrillic (text : str) : bool :=
  match text with
  | [] => false
  | _ => forallb cyrillic_char text
  end.

Definition validate_word (text : str) : exn + unit :=
  if negb (is_cyrillic text) then
    inl (Raise ValueError
           (py "Текст должен содержать только кириллические символы, пробелы или дефисы")
           [])
  else inr tt.

End WordValidator.

(** ** The three channels *)

Module web.

(** The template context of [partials/result.html]. *)
Record Context : Type := {
  ctx_original_text : str;
  ctx_result : option (list WordAssociation);
  ctx_error : option str;
  ctx_status : option ProcessingStatus
}.

Definition analyze_web (env : Env) (text : str) : M Context :=
  if negb (WordValidator.is_cyrillic text) then
    mret {| ctx_original_text := text;
            ctx_result := None;
            ctx_error := Some (py "Пожалуйста, используйте только кириллицу.");
            ctx_status := None |}
  else
    r ← LinguisticService.analyze_word env text (py "web");
    mret {| ctx_original_text := text;
            ctx_result := result r;
            ctx_error := error r;
            ctx_status := Some (status r) |}.

End web.

Module linguistic.

(** [LinguisticResponse] without the random request id and the members
    that keep their defaults. *)
Record LinguisticResponse : Type := {
  lr_original_text : str;
  lr_status : ProcessingStatus;
  lr_result : option (list WordAssociation);
  lr_error : option str
}.

(** The endpoint, preceded by the field validator of
    [LinguisticRequestBase] that runs when the request body is parsed. *)
Definition analyze_text (env : Env) (text : str) : M LinguisticResponse :=
  lift (WordValidator.validate_word text);;
  let word := lower (strip text) in
  r ← LinguisticService.analyze_word env word (py "api");
  match status r with
  | FAILED =>
      mret {| lr_original_text := word; lr_status := FAILED;
              lr_result := None; lr_error := error r |}
  | _ =>
      mret {| lr_original_text := word; lr_status := COMPLETED;
              lr_result := result r; lr_error := None |}
  end.

End linguistic.

Module handlers.

(** [list(dict.fromkeys(xs))]: duplicates dropped, first occurrences kept. *)
Fixpoint dict_fromkeys (xs : list str) : list str :=
  match xs with
  | [] => []
  | x :: xs' => x :: filter (λ y, y ≠ x) (dict_fromkeys xs')
  end.

(** What the bot answers, without the markup. *)
Inductive Reply : Type :=
  | NotCyrillic
  | TooLong
  | Failure (error : option str)
  | NothingFound
  | Found (word : str) (synonyms antonyms : list str)
  | InternalError.

Definition words_of (t : AssociationType) (r : list WordAssociation) : list str :=
  dict_fromkeys
    (map wa_word (filter (λ item, AssociationType_value (wa_type item) = AssociationType_value t) r)).

Definition analyze_message_text (env : Env) (text : str) : M Reply :=
  let word := strip text in
  if negb (WordValidator.is_cyrillic word) then mret NotCyrillic
  else if (50 <? length word)%nat then mret TooLong
  else
    try_except
      (response ← LinguisticService.analyze_word env word (py "telegram");
       match status response with
       | FAILED => mret (Failure (error response))
       | _ =>
           if negb (truthy (result response)) then mret NothingFound
           else
             let r := default [] (result response) in
             mret (Found word (words_of SYNONYM r) (words_of ANTONYM r))
       end)
      [(Exception, λ e, mret InternalError)].

End handlers.

(** A request arriving on one of the channels, and the worlds the system
    can be in after any number of requests. *)
Inductive Request : Type :=
  | WebForm (text : str)
  | ApiCall (text : str)
  | BotMessage (text : str).

Definition handle (env : Env) (req : Request) (w : World) : World :=
  match req with
  | WebForm text => snd (web.analyze_web env text w)
  | ApiCall text => snd (linguistic.analyze_text env text w)
  | BotMessage text => snd (handlers.analyze_message_text env text w)
  end.

Definition initial_world : World :=
  {| word_dictionary := ∅; request_history := []; llm_calls := [] |}.

Inductive reachable : World -> Prop :=
  | reachable_initial : reachable initial_world
  | reachable_handle (w : World) (env : Env) (req : Request) :
      reachable w -> reachable (handle env req w).

(** * Vocabulary of the statements *)

(** An environment in which no session operation raises. *)
Definition storage_ok (env : Env) : Prop :=
  select_exc env = None /\ upsert_execute_exc env = None /\
  upsert_commit_exc env = None /\ create_commit_exc env = None /\
  create_refresh_exc env = None.

Definition quiet (chain : str -> exn + AnalysisResponse) : Env :=
  {| select_exc := None; upsert_execute_exc := None; upsert_commit_exc := None;
     create_commit_exc := None; create_refresh_exc := None;
     chain_ainvoke := chain |}.

(** Two inputs that differ only in leading or trailing white space or in
    letter case: each is a padded copy of a core, and the cores agree letter
    by letter once lowered. *)
Definition spaces (s : str) : Prop := forallb is_space s = true.

Definition same_letters (a b : str) : Prop :=
  Forall2 (λ x y, lower_char x = lower_char y) a b.

Definition same_word (a b : str) : Prop :=
  exists l1 r1 l2 r2 c1 c2,
    a = l1 ++ c1 ++ r1 /\ b = l2 ++ c2 ++ r2 /\
    spaces l1 /\ spaces r1 /\ spaces l2 /\ spaces r2 /\ same_letters c1 c2.

(** ** Messages and outcomes *)

(** What a repository method lets through: an [SQLAlchemyError] leaves as a
    [DatabaseError] with the method's fixed message, anything else as it is. *)
Definition translated (msg : str) (e : exn) : exn :=
  if isinstance e SQLAlchemyError
  then Raise DatabaseError msg [(py "error", message e)]
  else e.

Definition save_failed : str := py "Ошибка при сохранении слова в БД".
Definition create_failed : str := py "Ошибка при создании записи в БД".
Definition llm_failed : str := py "Ошибка при обращении к AI сервису".

Definition not_found (word : str) : str :=
  py "Слово '" ++ word ++ py "' не найдено в русском языке.".

Definition associations_of (response : AnalysisResponse) : list WordAssociation :=
  map (λ syn, {| wa_word := syn; wa_type := SYNONYM |}) (synonyms response)
  ++ map (λ ant, {| wa_word := ant; wa_type := ANTONYM |}) (antonyms response).

(** The update the graph node produces for a word. *)
Definition generated (env : Env) (word : str) : graph.StateUpdate :=
  match chain_ainvoke env word with
  | inr response =>
      if is_exists response then graph.UpdateResult (associations_of response)
      else graph.UpdateError (not_found word)
  | inl e =>
      graph.UpdateError (if isinstance e ValueError then message e else llm_failed)
  end.

(** The dictionary an [except] clause of [analyze_word] returns. *)
Definition handled (e : exn) : Response :=
  {| result := None;
     error := Some (if isinstance e ValueError then message e
                    else if isinstance e AppError then message e
                    else LinguisticService.internal_error);
     status := FAILED |}.

(** Every row of the cache holds a non-empty list of associations, stored
    as the service dumps it, under a normalized key. *)
Definition cache_invariant (w : World) : Prop :=
  forall (k : str) (doc : gmap str (list JsonItem)),
    word_dictionary w !! k = Some doc ->
    normalize k = k /\
    exists r, r <> [] /\ doc = LinguisticService.json_data r.

(** The source a channel passes to the service. *)
Definition channel_source (req : Request) : str :=
  match req with
  | WebForm _ => py "web"
  | ApiCall _ => py "api"
  | BotMessage _ => py "telegram"
  end.

(** ** Sample collaborators *)

Definition happiness : AnalysisResponse :=
  {| is_exists := true;
     synonyms := [py "радость"; py "блаженство"; py "восторг"; py "благополучие"; py "удача"];
     antonyms := [py "горе"; py "несчастье"; py "беда"; py "печаль"; py "тоска"] |}.

(** A chain that knows the word "счастье" and reports every other word as
    non-existent. *)
Definition sample_chain (word : str) : exn + AnalysisResponse :=
  if decide (word = py "счастье") then inr happiness
  else inr {| is_exists := false; synonyms := []; antonyms := [] |}.

(** A chain that accepts every word but finds nothing for it. *)
Definition empty_chain (word : str) : exn + AnalysisResponse :=
  inr {| is_exists := true; synonyms := []; antonyms := [] |}.

(** A chain whose call fails with a [ValueError] that carries no text. *)
Definition blank_chain (word : str) : exn + AnalysisResponse :=
  inl (Raise ValueError [] []).

(** A chain that must not be called. *)
Definition dead_chain (word : str) : exn + AnalysisResponse :=
  inl (Raise Exception (py "unreachable") []).

(** A world in which the word "счастье" is cached. *)
Definition cached_world : World :=
  {| word_dictionary := {[ py "счастье" := LinguisticService.json_data (associations_of happiness) ]};
     request_history := [];
     llm_calls := [] |}.

(** The history insert commits, then the refresh of the new row fails. *)
Definition refresh_fails : Env :=
  {| select_exc := None; upsert_execute_exc := None; upsert_commit_exc := None;
     create_commit_exc := None;
     create_refresh_exc := Some (Raise SQLAlchemyError (py "connection closed") []);
     chain_ainvoke := sample_chain |}.

(** ** Queries and runs *)

(** [HistoryRepository.get_by_user_id]: the records of one user, newest
    first, after [skip] of them and at most [limit].  Records are kept in
    the order of their insertion, which is the order of [created_at], so
    newest first is the reverse; [exc] says whether the query raises (the
    method translates nothing).  [skip] and [limit] are non-negative. *)
Definition get_by_user_id (exc : option exn) (uid : N) (skip limit : nat)
    : M (list RequestHistory) :=
  await exc;;
  w ← get_world;
  mret (take limit (drop skip
          (rev (filter (λ record, user_id record = Some uid) (request_history w))))).

(** The requests a channel turns down before the service is consulted. *)
Definition rejected (req : Request) : bool :=
  match req with
  | WebForm text => negb (WordValidator.is_cyrillic text)
  | ApiCall text => negb (WordValidator.is_cyrillic text)
  | BotMessage text =>
      negb (WordValidator.is_cyrillic (strip text)) || (50 <? length (strip text))%nat
  end.

(** The text the user sent. *)
Definition request_text (req : Request) : str :=
  match req with
  | WebForm text | ApiCall text | BotMessage text => text
  end.

(** The text a channel hands to the service. *)
Definition submitted (req : Request) : str :=
  match req with
  | WebForm text => text
  | ApiCall text => lower (strip text)
  | BotMessage text => strip text
  end.

(** A sequence of requests, each with what its collaborators do. *)
Fixpoint run (steps : list (Env * Request)) (w : World) : World :=
  match steps with
  | [] => w
  | (env, req) :: steps' => run steps' (handle env req w)
  end.

(** The characters left once a validated text is lowered: the small
    Cyrillic letters, white space and the hyphen. *)
Definition small_cyrillic_char (c : codepoint) : bool :=
  ((0x430 <=? c) && (c <=? 0x44F)) || (c =? 0x451) || is_space c || (c =? 0x2D).

(** * Properties *)

Example normalize_fdyva : normalize (py "ФДЫВА ") = py "фдыва".
Proof. reflexivity. Qed.

Example normalize_happiness : normalize (py "  Счастье
") = py "счастье".
Proof. reflexivity. Qed.

(** ** Text normalization *)

Section Text.

Lemma is_space_spec (c : codepoint) :
  is_space c = true <->
  (0x09 <= c <= 0x0D) \/ (0x1C <= c <= 0x20) \/ c = 0x85 \/ c = 0xA0 \/ c = 0x1680
  \/ (0x2000 <= c <= 0x200A) \/ c = 0x2028 \/ c = 0x2029 \/ c = 0x202F
  \/ c = 0x205F \/ c = 0x3000.
Proof.
  unfold is_space.
  rewrite !orb_true_iff, !andb_true_iff, !N.leb_le, !N.eqb_eq. tauto.
Qed.

Lemma lower_char_cases (c : codepoint) :
  lower_char c = c \/
  (0x41 <= c <= 0x5A /\ lower_char c = c + 0x20) \/
  (0xC0 <= c <= 0xDE /\ lower_char c = c + 0x20) \/
  (0x400 <= c <= 0x40F /\ lower_char c = c + 0x50) \/
  (0x410 <= c <= 0x42F /\ lower_char c = c + 0x20).
Proof.
  unfold lower_char.
  destruct (N.leb_spec 0x41 c), (N.leb_spec c 0x5A); simpl; try (right; left; lia);
  destruct (N.leb_spec 0xC0 c), (N.leb_spec c 0xDE), (N.eqb_spec c 0xD7); simpl;
    try (right; right; left; lia);
  destruct (N.leb_spec 0x400 c), (N.leb_spec c 0x40F); simpl;
    try (right; right; right; left; lia);
  destruct (N.leb_spec 0x410 c), (N.leb_spec c 0x42F); simpl;
    try (right; right; right; right; lia); by left.
Qed.

Lemma is_space_lower_char (c : codepoint) : is_space (lower_char c) = is_space c.
Proof.
  apply eq_true_iff_eq. rewrite !is_space_spec.
  destruct (lower_char_cases c) as [-> | [[H ->] | [[H ->] | [[H ->] | [H ->]]]]];
    [tauto | lia..].
Qed.

Lemma lower_char_idempotent (c : codepoint) : lower_char (lower_char c) = lower_char c.
Proof.
  destruct (lower_char_cases c) as [E | [[H E] | [[H E] | [[H E] | [H E]]]]];
    rewrite E; try exact E;
    match goal with
    | |- lower_char ?x = _ => destruct (lower_char_cases x) as [E' | E']
    end; try exact E'; lia.
Qed.

Lemma lstrip_lower (s : str) : lstrip (lower s) = lower (lstrip s).
Proof.
  induction s as [|c s IH]; simpl; [reflexivity|].
  rewrite is_space_lower_char. destruct (is_space c); [exact IH | reflexivity].
Qed.

Lemma strip_lower (s : str) : strip (lower s) = lower (strip s).
Proof.
  unfold strip, rstrip.
  rewrite (lstrip_lower s). unfold lower at 1.
  rewrite <- map_rev. fold (lower (rev (lstrip s))).
  rewrite (lstrip_lower (rev (lstrip s))). unfold lower.
  by rewrite map_rev.
Qed.

Lemma lstrip_spaces_app (l s : str) :
  forallb is_space l = true -> lstrip (l ++ s) = lstrip s.
Proof.
  induction l as [|c l IH]; simpl; [done|].
  intros [Hc Hl]%andb_prop. rewrite Hc. auto.
Qed.

Lemma lstrip_spaces (l : str) : forallb is_space l = true -> lstrip l = [].
Proof.
  intros H. rewrite <- (app_nil_r l). by rewrite lstrip_spaces_app.
Qed.

Lemma rstrip_app_spaces (s r : str) :
  forallb is_space r = true -> rstrip (s ++ r) = rstrip s.
Proof.
  intros H. unfold rstrip. rewrite rev_app_distr.
  rewrite lstrip_spaces_app; [done|].
  rewrite forallb_forall in *. intros x Hx. apply H. by apply in_rev.
Qed.

Lemma strip_app_spaces (s r : str) :
  forallb is_space r = true -> strip (s ++ r) = strip s.
Proof.
  intros H. unfold strip.
  induction s as [|c s IH]; simpl.
  - by rewrite lstrip_spaces.
  - destruct (is_space c); [exact IH|].
    exact (rstrip_app_spaces (c :: s) r H).
Qed.

Lemma strip_padding (l s r : str) :
  forallb is_space l = true -> forallb is_space r = true ->
  strip (l ++ s ++ r) = strip s.
Proof.
  intros Hl Hr.
  transitivity (strip (s ++ r)); [|by apply strip_app_spaces].
  unfold strip. by rewrite lstrip_spaces_app.
Qed.

Lemma lstrip_idempotent (s : str) : lstrip (lstrip s) = lstrip s.
Proof.
  induction s as [|c s IH]; simpl; [done|].
  destruct (is_space c) eqn:E; [done|]. simpl. by rewrite E.
Qed.

Lemma lstrip_head (s : str) (c : codepoint) (v : str) :
  lstrip s = c :: v -> is_space c = false.
Proof.
  induction s as [|d s IH]; simpl; [done|].
  destruct (is_space d) eqn:E; [done | congruence].
Qed.

Lemma lstrip_snoc (q : str) (c : codepoint) :
  is_space c = false -> lstrip (q ++ [c]) = lstrip q ++ [c].
Proof.
  intros Hc. induction q as [|d q IH]; simpl; [by rewrite Hc|].
  by destruct (is_space d).
Qed.

Lemma rstrip_cons (c : codepoint) (v : str) :
  is_space c = false -> rstrip (c :: v) = c :: rstrip v.
Proof.
  intros Hc. unfold rstrip. simpl rev.
  by rewrite lstrip_snoc, rev_app_distr.
Qed.

Lemma strip_idempotent (s : str) : strip (strip s) = strip s.
Proof.
  unfold strip at 2 3.
  destruct (lstrip s) as [|c v] eqn:E; [done|].
  pose proof (lstrip_head _ _ _ E) as Hc.
  rewrite (rstrip_cons c v Hc). unfold strip. simpl. rewrite Hc.
  rewrite (rstrip_cons _ _ Hc). f_equal.
  unfold rstrip. by rewrite rev_involutive, lstrip_idempotent.
Qed.

Lemma normalize_idempotent (s : str) : normalize (normalize s) = normalize s.
Proof.
  unfold normalize. rewrite strip_lower, strip_idempotent.
  unfold lower. rewrite map_map.
  apply map_ext. intros c. apply lower_char_idempotent.
Qed.

End Text.

Lemma same_letters_lower (a b : str) : same_letters a b -> lower a = lower b.
Proof.
  induction 1 as [|x y a b Hxy _ IH]; simpl; [done|]. by rewrite Hxy, IH.
Qed.

Lemma normalize_same_word (a b : str) : same_word a b -> normalize a = normalize b.
Proof.
  intros (l1 & r1 & l2 & r2 & c1 & c2 & -> & -> & Hl1 & Hr1 & Hl2 & Hr2 & Hc).
  unfold normalize. rewrite !strip_padding by assumption.
  rewrite <- !strip_lower. by rewrite (same_letters_lower _ _ Hc).
Qed.

(** ** The collaborators, one equation each *)

Section Operations.

Variable env : Env.

Lemma isinstance_Exception (e : exn) : isinstance e Exception = true.
Proof. by destruct e as [[] ? ?]. Qed.

Lemma get_by_word_eq (word : str) (w : World) :
  DictionaryRepository.get_by_word env word w =
  match select_exc env with
  | Some e => (inl e, w)
  | None =>
      (inr ((λ doc, {| wd_word := word; wd_associations := doc |})
              <$> word_dictionary w !! word), w)
  end.
Proof.
  unfold DictionaryRepository.get_by_word, mbind, M_bind, await.
  by destruct (select_exc env).
Qed.

Lemma upsert_eq (word : str) (doc : gmap str (list JsonItem)) (w : World) :
  DictionaryRepository.upsert env word doc w =
  match upsert_execute_exc env with
  | Some e => (inl (translated save_failed e), w)
  | None =>
      match upsert_commit_exc env with
      | Some e => (inl (translated save_failed e), w)
      | None => (inr {| wd_word := word; wd_associations := doc |}, put_word word doc w)
      end
  end.
Proof.
  unfold DictionaryRepository.upsert, try_except, mbind, M_bind, await, translated.
  destruct (upsert_execute_exc env) as [e|]; simpl.
  { by destruct (isinstance e SQLAlchemyError). }
  destruct (upsert_commit_exc env) as [e|]; simpl; [|done].
  by destruct (isinstance e SQLAlchemyError).
Qed.

Lemma create_eq (src text : str) (w : World) :
  let instance := {| user_id := None; source := src; original_text := text |} in
  HistoryRepository.create env src text w =
  match create_commit_exc env with
  | Some e => (inl (translated create_failed e), w)
  | None =>
      match create_refresh_exc env with
      | Some e => (inl (translated create_failed e), add_history instance w)
      | None => (inr instance, add_history instance w)
      end
  end.
Proof.
  unfold HistoryRepository.create, try_except, mbind, M_bind, await, translated.
  destruct (create_commit_exc env) as [e|]; simpl.
  { by destruct (isinstance e SQLAlchemyError). }
  destruct (create_refresh_exc env) as [e|]; simpl; [|done].
  by destruct (isinstance e SQLAlchemyError).
Qed.

Lemma chains_analyze_word_eq (word : str) (w : World) :
  chains.analyze_word env word w =
  (match chain_ainvoke env word with
   | inr response =>
       if is_exists response then inr (associations_of response)
       else inl (Raise ValueError (not_found word) [])
   | inl e =>
       if isinstance e ValueError then inl e
       else inl (Raise ExternalAPIError llm_failed
                   [(py "error", message e); (py "word", word)])
   end, log_llm_call word w).
Proof.
  unfold chains.analyze_word, try_except, mbind, M_bind, lift, modify. simpl.
  destruct (chain_ainvoke env word) as [e|response]; simpl.
  - rewrite isinstance_Exception. by destruct (isinstance e ValueError).
  - by destruct (is_exists response).
Qed.

Lemma process_analysis_eq (state : graph.GraphState) (w : World) :
  graph.process_analysis env state w =
  (inr (generated env (graph.gs_word state)), log_llm_call (graph.gs_word state) w).
Proof.
  unfold graph.process_analysis, try_except, mbind, M_bind, generated.
  rewrite chains_analyze_word_eq.
  destruct (chain_ainvoke env (graph.gs_word state)) as [e|response]; simpl.
  - destruct (isinstance e ValueError); simpl; by rewrite ?isinstance_Exception.
  - by destruct (is_exists response).
Qed.

Lemma ainvoke_eq (inputs : graph.GraphState) (w : World) :
  graph.ainvoke env inputs w =
  (inr (graph.apply_update inputs (generated env (graph.gs_word inputs))),
   log_llm_call (graph.gs_word inputs) w).
Proof.
  unfold graph.ainvoke, mbind, M_bind. by rewrite process_analysis_eq.
Qed.

End Operations.

(** C7.  The generator step never lets an exception escape.  Whatever the
    chain does for the word (answers, reports the word as unknown, or raises
    any exception), [process_analysis] returns normally, with either the
    association list or an error message, and so does the graph built from
    it: its final state carries the list or the message. *)
Theorem generator_never_raises (env : Env) (state : graph.GraphState) (w : World) :
  exists u w',
    graph.process_analysis env state w = (inr u, w') /\
    ((exists r, u = graph.UpdateResult r) \/ (exists m, u = graph.UpdateError m)) /\
    graph.ainvoke env state w = (inr (graph.apply_update state u), w') /\
    match chain_ainvoke env (graph.gs_word state) with
    | inr response =>
        if is_exists response
        then u = graph.UpdateResult (associations_of response)
        else u = graph.UpdateError (not_found (graph.gs_word state))
    | inl e =>
        u = graph.UpdateError (if isinstance e ValueError then message e else llm_failed)
    end.
Proof.
  exists (generated env (graph.gs_word state)), (log_llm_call (graph.gs_word state) w).
  split; [apply process_analysis_eq|].
  split.
  { unfold generated.
    destruct (chain_ainvoke env (graph.gs_word state)) as [e|response]; [eauto|].
    destruct (is_exists response); eauto. }
  split; [apply ainvoke_eq|].
  unfold generated.
  destruct (chain_ainvoke env (graph.gs_word state)) as [e|response]; [done|].
  by destruct (is_exists response).
Qed.

(** ** The orchestrator, case by case *)

Section Orchestrator.

Variable env : Env.

Import LinguisticService.

Lemma analyze_word_eq (word src : str) (w : World) :
  analyze_word env word src w =
  match analyze_word_try env (normalize word) src w with
  | (inr r, w') => (inr r, w')
  | (inl e, w') => (inr (handled e), w')
  end.
Proof.
  unfold analyze_word, try_except, normalize, handled.
  destruct (analyze_word_try env (lower (strip word)) src w) as [[e|r] w']; [|done].
  simpl. destruct (isinstance e ValueError); [done|].
  destruct (isinstance e AppError); [done|].
  by rewrite isinstance_Exception.
Qed.

Lemma analyze_word_try_lookup_raises (word src : str) (w : World) (e : exn) :
  select_exc env = Some e ->
  analyze_word_try env word src w = (inl e, w).
Proof.
  intros H. unfold analyze_word_try, mbind, M_bind.
  by rewrite get_by_word_eq, H.
Qed.

Lemma analyze_word_try_hit (word src : str) (w : World) (doc : gmap str (list JsonItem)) :
  select_exc env = None ->
  word_dictionary w !! word = Some doc ->
  analyze_word_try env word src w =
  match mapM WordAssociation_validate (default [] (doc !! py "items")) with
  | inl e => (inl e, w)
  | inr associations =>
      match HistoryRepository.create env src word w with
      | (inl e, w') => (inl e, w')
      | (inr _, w') =>
          (inr {| result := Some associations; error := None; status := COMPLETED |}, w')
      end
  end.
Proof.
  intros H Hdoc. unfold analyze_word_try, mbind, M_bind.
  rewrite get_by_word_eq, H, Hdoc. simpl.
  destruct (mapM WordAssociation_validate (default [] (doc !! _))) as [e|r]; [done|].
  simpl. by destruct (HistoryRepository.create env src word w) as [[?|?] ?].
Qed.

Lemma analyze_word_try_miss (word src : str) (w : World) :
  select_exc env = None ->
  word_dictionary w !! word = None ->
  analyze_word_try env word src w =
  let w1 := log_llm_call word w in
  let st := graph.apply_update (inputs word) (generated env word) in
  let finish w2 :=
    match HistoryRepository.create env src word w2 with
    | (inl e, w') => (inl e, w')
    | (inr _, w') =>
        (inr {| result := graph.gs_result st;
                error := graph.gs_error st;
                status := if negb (truthy (graph.gs_error st)) then COMPLETED else FAILED |},
         w')
    end in
  if truthy (graph.gs_result st) then
    match DictionaryRepository.upsert env word
            (json_data (default [] (graph.gs_result st))) w1 with
    | (inl e, w2) => (inl e, w2)
    | (inr _, w2) => finish w2
    end
  else finish w1.
Proof.
  intros H Hdoc. unfold analyze_word_try, mbind, M_bind.
  rewrite get_by_word_eq, H, Hdoc. simpl.
  rewrite ainvoke_eq. simpl.
  destruct (truthy _).
  - destruct (DictionaryRepository.upsert _ _ _ _) as [[?|?] ?]; [done|]. simpl.
    by destruct (HistoryRepository.create _ _ _ _) as [[?|?] ?].
  - simpl. by destruct (HistoryRepository.create _ _ _ _) as [[?|?] ?].
Qed.

End Orchestrator.

Section Workflow.

Variable env : Env.

Import LinguisticService.

Lemma validate_model_dump (r : list WordAssociation) :
  mapM WordAssociation_validate (map model_dump r) = inr r.
Proof.
  induction r as [|[word []] r IH]; simpl; [done| |]; by rewrite IH.
Qed.

Lemma json_data_items (r : list WordAssociation) :
  default [] (json_data r !! py "items") = map model_dump r.
Proof. unfold json_data. by rewrite lookup_singleton_eq. Qed.

(** Where the request leaves the world, whatever happens. *)
Lemma analyze_word_world (raw src : str) (w : World) :
  let word := normalize raw in
  let w' := snd (analyze_word env raw src w) in
  let record := {| user_id := None; source := src; original_text := word |} in
  (word_dictionary w' = word_dictionary w \/
   select_exc env = None /\ word_dictionary w !! word = None /\
   exists r, generated env word = graph.UpdateResult r /\ r <> [] /\
             word_dictionary w' = <[word := json_data r]> (word_dictionary w)) /\
  (request_history w' = request_history w \/
   request_history w' = request_history w ++ [record]) /\
  (llm_calls w' = llm_calls w \/
   select_exc env = None /\ word_dictionary w !! word = None /\
   llm_calls w' = llm_calls w ++ [word]).
Proof.
  intros word w' record. subst w'. rewrite analyze_word_eq. fold word.
  destruct (select_exc env) as [e|] eqn:Hsel.
  { rewrite (analyze_word_try_lookup_raises env word src w e Hsel). simpl. tauto. }
  destruct (word_dictionary w !! word) as [doc|] eqn:Hdoc.
  { rewrite (analyze_word_try_hit env word src w doc Hsel Hdoc).
    destruct (mapM _ _) as [e|r]; simpl; [tauto|].
    rewrite create_eq.
    destruct (create_commit_exc env), (create_refresh_exc env); simpl; tauto. }
  rewrite (analyze_word_try_miss env word src w Hsel Hdoc). cbv zeta.
  destruct (generated env word) as [r|m] eqn:Hgen; simpl.
  - destruct r as [|a r]; simpl.
    + rewrite create_eq.
      destruct (create_commit_exc env), (create_refresh_exc env); simpl; tauto.
    + rewrite upsert_eq.
      destruct (upsert_execute_exc env); simpl; [tauto|].
      destruct (upsert_commit_exc env); simpl; [tauto|].
      rewrite create_eq.
      destruct (create_commit_exc env), (create_refresh_exc env); simpl;
        (split; [right; repeat split; eauto | tauto]).
  - rewrite create_eq.
    destruct (create_commit_exc env), (create_refresh_exc env); simpl; tauto.
Qed.

Lemma analyze_word_invariant (raw src : str) (w : World) :
  cache_invariant w -> cache_invariant (snd (analyze_word env raw src w)).
Proof.
  intros Hinv k doc.
  destruct (analyze_word_world raw src w)
    as ([-> | (_ & _ & r & _ & Hr & ->)] & _ & _); [apply Hinv|].
  rewrite lookup_insert.
  destruct (decide (normalize raw = k)) as [<-|Hk]; [|apply Hinv].
  intros [= <-]. split; [apply normalize_idempotent | eauto].
Qed.

(** A row that satisfies the invariant decodes to its non-empty list. *)
Lemma cached_rows_decode (w : World) (k : str) (doc : gmap str (list JsonItem)) :
  cache_invariant w ->
  word_dictionary w !! k = Some doc ->
  exists r, r <> [] /\
    mapM WordAssociation_validate (default [] (doc !! py "items")) = inr r.
Proof.
  intros Hinv Hdoc. destruct (Hinv k doc Hdoc) as (_ & r & Hr & ->).
  exists r. split; [done|]. rewrite json_data_items. apply validate_model_dump.
Qed.

(** A hit whose row decodes, with the history insert going through. *)
Lemma analyze_word_hit
    (raw src : str) (w : World) (doc : gmap str (list JsonItem))
    (associations : list WordAssociation) :
  select_exc env = None ->
  word_dictionary w !! normalize raw = Some doc ->
  mapM WordAssociation_validate (default [] (doc !! py "items")) = inr associations ->
  create_commit_exc env = None ->
  create_refresh_exc env = None ->
  analyze_word env raw src w =
    (inr {| result := Some associations; error := None; status := COMPLETED |},
     {| word_dictionary := word_dictionary w;
        request_history :=
          request_history w ++
          [{| user_id := None; source := src; original_text := normalize raw |}];
        llm_calls := llm_calls w |}).
Proof.
  intros Hsel Hdoc Hdec Hc Hr.
  rewrite analyze_word_eq, (analyze_word_try_hit env _ src w doc Hsel Hdoc), Hdec.
  by rewrite create_eq, Hc, Hr.
Qed.

(** A hit never calls the chain, whatever fails later. *)
Lemma analyze_word_hit_calls
    (raw src : str) (w : World) (doc : gmap str (list JsonItem)) :
  select_exc env = None ->
  word_dictionary w !! normalize raw = Some doc ->
  llm_calls (snd (analyze_word env raw src w)) = llm_calls w.
Proof.
  intros Hsel Hdoc.
  rewrite analyze_word_eq, (analyze_word_try_hit env _ src w doc Hsel Hdoc).
  destruct (mapM _ _) as [e|r]; simpl; [done|].
  rewrite create_eq.
  by destruct (create_commit_exc env), (create_refresh_exc env).
Qed.

(** A miss with the storage in order: the generator is called once, its
    list is stored if it is non-empty, and the request is recorded. *)
Lemma analyze_word_miss (raw src : str) (w : World) :
  storage_ok env ->
  word_dictionary w !! normalize raw = None ->
  let word := normalize raw in
  let st := graph.apply_update (inputs word) (generated env word) in
  analyze_word env raw src w =
  (inr {| result := graph.gs_result st;
          error := graph.gs_error st;
          status := if negb (truthy (graph.gs_error st)) then COMPLETED else FAILED |},
   {| word_dictionary :=
        if truthy (graph.gs_result st)
        then <[word := json_data (default [] (graph.gs_result st))]> (word_dictionary w)
        else word_dictionary w;
      request_history :=
        request_history w ++ [{| user_id := None; source := src; original_text := word |}];
      llm_calls := llm_calls w ++ [word] |}).
Proof.
  intros (Hsel & Hue & Huc & Hcc & Hcr) Hdoc. cbv zeta.
  rewrite analyze_word_eq, (analyze_word_try_miss env _ src w Hsel Hdoc). cbv zeta.
  destruct (truthy (graph.gs_result _)).
  - by rewrite upsert_eq, Hue, Huc, create_eq, Hcc, Hcr.
  - by rewrite create_eq, Hcc, Hcr.
Qed.

(** A miss calls the chain exactly once, whatever fails later. *)
Lemma analyze_word_miss_calls (raw src : str) (w : World) :
  select_exc env = None ->
  word_dictionary w !! normalize raw = None ->
  llm_calls (snd (analyze_word env raw src w)) = llm_calls w ++ [normalize raw].
Proof.
  intros Hsel Hdoc.
  rewrite analyze_word_eq, (analyze_word_try_miss env _ src w Hsel Hdoc). cbv zeta.
  destruct (truthy (graph.gs_result _)).
  - rewrite upsert_eq.
    destruct (upsert_execute_exc env); [done|].
    destruct (upsert_commit_exc env); [done|].
    rewrite create_eq.
    by destruct (create_commit_exc env), (create_refresh_exc env).
  - rewrite create_eq.
    by destruct (create_commit_exc env), (create_refresh_exc env).
Qed.

End Workflow.

(** ** The cache-aside policy *)

Section CachePolicy.

Import LinguisticService.

(** C1.  [analyze_word] preserves the cache invariant.  The dictionary
    table is left as it was, or the generator returned a non-empty list for
    the normalized word and exactly that list was written under that key.
    When the generator fails or returns no associations the table is
    unchanged; no other key is ever touched; and if every row held a
    non-empty dumped list under a normalized key before, so it does after. *)
Theorem cache_written_only_for_generated_associations
    (env : Env) (raw src : str) (w : World) :
  let word := normalize raw in
  let w' := snd (analyze_word env raw src w) in
  (word_dictionary w' = word_dictionary w \/
   exists r, r <> [] /\
     fst (graph.ainvoke env (inputs word) w) =
       inr {| graph.gs_word := word; graph.gs_result := Some r; graph.gs_error := None |} /\
     word_dictionary w' = <[word := json_data r]> (word_dictionary w)) /\
  (forall st, fst (graph.ainvoke env (inputs word) w) = inr st ->
              truthy (graph.gs_result st) = false ->
              word_dictionary w' = word_dictionary w) /\
  (forall k, k <> word -> word_dictionary w' !! k = word_dictionary w !! k) /\
  (cache_invariant w -> cache_invariant w').
Proof.
  cbv zeta.
  destruct (analyze_word_world env raw src w)
    as ([Hd | (Hsel & Hdoc & r & Hgen & Hr & Hd)] & _ & _);
    set (word := normalize raw) in *;
    set (w' := snd (analyze_word env raw src w)) in *.
  { rewrite Hd. split; [by left|]. split; [done|]. split; [done|].
    intros Hinv k doc. rewrite Hd. apply Hinv. }
  assert (Hst : fst (graph.ainvoke env (inputs word) w) =
                inr {| graph.gs_word := word; graph.gs_result := Some r;
                       graph.gs_error := None |}).
  { rewrite ainvoke_eq. simpl. by rewrite Hgen. }
  split; [right; eauto|].
  split.
  { intros st Hst' Hfalse. rewrite Hst in Hst'. injection Hst' as <-.
    simpl in Hfalse. destruct r; [done | discriminate]. }
  split.
  { intros k Hk. rewrite Hd. by rewrite lookup_insert_ne. }
  apply analyze_word_invariant.
Qed.

(** C2.  The hit path.  When the lookup goes through and finds a row for
    the normalized input, the language-model chain is not called, whatever
    happens afterwards.  When moreover the row decodes to [associations] and
    the history insert goes through, the answer is those associations with
    status COMPLETED and no error, exactly one history record is appended,
    and the cache is left alone. *)
Theorem cache_hit_skips_generator
    (env : Env) (raw src : str) (w : World) (doc : gmap str (list JsonItem)) :
  select_exc env = None ->
  word_dictionary w !! normalize raw = Some doc ->
  llm_calls (snd (analyze_word env raw src w)) = llm_calls w /\
  forall associations,
    mapM WordAssociation_validate (default [] (doc !! py "items")) = inr associations ->
    create_commit_exc env = None ->
    create_refresh_exc env = None ->
    analyze_word env raw src w =
      (inr {| result := Some associations; error := None; status := COMPLETED |},
       {| word_dictionary := word_dictionary w;
          request_history :=
            request_history w ++
            [{| user_id := None; source := src; original_text := normalize raw |}];
          llm_calls := llm_calls w |}).
Proof.
  intros Hsel Hdoc. split.
  - by apply (analyze_word_hit_calls env raw src w doc).
  - intros associations Hdec Hc Hr. by apply (analyze_word_hit env raw src w doc).
Qed.

Lemma cache_hit_witness :
  llm_calls (snd (analyze_word (quiet dead_chain) (py "Счастье") (py "bot") cached_world))
    = llm_calls cached_world /\
  analyze_word (quiet dead_chain) (py "Счастье") (py "bot") cached_world =
    (inr {| result := Some (associations_of happiness); error := None;
            status := COMPLETED |},
     {| word_dictionary := word_dictionary cached_world;
        request_history :=
          request_history cached_world ++
          [{| user_id := None; source := py "bot";
              original_text := normalize (py "Счастье") |}];
        llm_calls := llm_calls cached_world |}).
Proof.
  destruct (cache_hit_skips_generator (quiet dead_chain) (py "Счастье") (py "bot")
              cached_world (json_data (associations_of happiness)))
    as [Hcalls Hhit].
  - reflexivity.
  - vm_compute. reflexivity.
  - split; [exact Hcalls|].
    apply (Hhit (associations_of happiness)); reflexivity.
Defined.

End CachePolicy.

Section EmptyAnswers.

Import LinguisticService.

(** C9.  A word the chain accepts but returns no synonyms and no antonyms
    for, on a miss with the storage in order: the answer is COMPLETED with
    an empty list and no error, no row is written, and a later request for
    the same word misses again and calls the chain a second time. *)
Theorem empty_answer_is_completed_but_not_cached
    (env env2 : Env) (raw src src2 : str) (w : World) (response : AnalysisResponse) :
  storage_ok env ->
  select_exc env2 = None ->
  word_dictionary w !! normalize raw = None ->
  chain_ainvoke env (normalize raw) = inr response ->
  is_exists response = true ->
  synonyms response = [] ->
  antonyms response = [] ->
  let w1 := snd (analyze_word env raw src w) in
  fst (analyze_word env raw src w) =
    inr {| result := Some []; error := None; status := COMPLETED |} /\
  word_dictionary w1 = word_dictionary w /\
  word_dictionary w1 !! normalize raw = None /\
  llm_calls w1 = llm_calls w ++ [normalize raw] /\
  llm_calls (snd (analyze_word env2 raw src2 w1)) =
    llm_calls w ++ [normalize raw; normalize raw].
Proof.
  intros Hok Hsel2 Hdoc Hchain Hex Hsyn Hant w1.
  assert (Hgen : generated env (normalize raw) = graph.UpdateResult []).
  { unfold generated, associations_of. by rewrite Hchain, Hex, Hsyn, Hant. }
  subst w1. rewrite (analyze_word_miss env raw src w Hok Hdoc). cbv zeta.
  rewrite Hgen. simpl.
  repeat split; try done.
  rewrite analyze_word_miss_calls by done. simpl.
  by rewrite <- app_assoc.
Qed.

Lemma empty_answer_witness :
  let w1 := snd (analyze_word (quiet empty_chain) (py " Тест") (py "web") initial_world) in
  fst (analyze_word (quiet empty_chain) (py " Тест") (py "web") initial_world) =
    inr {| result := Some []; error := None; status := COMPLETED |} /\
  word_dictionary w1 = word_dictionary initial_world /\
  word_dictionary w1 !! normalize (py " Тест") = None /\
  llm_calls w1 = llm_calls initial_world ++ [normalize (py " Тест")] /\
  llm_calls (snd (analyze_word (quiet empty_chain) (py " Тест") (py "api") w1)) =
    llm_calls initial_world ++ [normalize (py " Тест"); normalize (py " Тест")].
Proof.
  apply (empty_answer_is_completed_but_not_cached
           (quiet empty_chain) (quiet empty_chain) (py " Тест") (py "web") (py "api")
           initial_world {| is_exists := true; synonyms := []; antonyms := [] |});
    try reflexivity.
  repeat split.
Defined.

End EmptyAnswers.

Section RoundTrip.

Import LinguisticService.

(** C3, as stated, fails when generation succeeds with an empty list: the
    request is answered COMPLETED with no error, yet the cache holds no row
    for the key and the next request for the same word calls the chain
    again. *)
Lemma completed_generation_without_cache_entry :
  let w1 := snd (analyze_word (quiet empty_chain) (py "тест") (py "web") initial_world) in
  fst (analyze_word (quiet empty_chain) (py "тест") (py "web") initial_world) =
    inr {| result := Some []; error := None; status := COMPLETED |} /\
  word_dictionary w1 !! py "тест" = None /\
  llm_calls w1 = [py "тест"] /\
  llm_calls (snd (analyze_word (quiet empty_chain) (py "тест") (py "web") w1)) =
    [py "тест"; py "тест"].
Proof. vm_compute. repeat split. Qed.

(** C3, amended.  After a miss on which the chain returned a non-empty list
    of associations (storage in order), exactly one row has been added, it
    sits under the normalized key and decodes to precisely that list; and a
    following request for the same word, or for any input that differs from
    it only in leading or trailing white space or in letter case, is a hit:
    it returns the same associations without calling the chain. *)
Theorem cache_round_trip
    (env env2 : Env) (raw raw2 src src2 : str) (w : World) (response : AnalysisResponse) :
  storage_ok env ->
  select_exc env2 = None ->
  create_commit_exc env2 = None ->
  create_refresh_exc env2 = None ->
  word_dictionary w !! normalize raw = None ->
  chain_ainvoke env (normalize raw) = inr response ->
  is_exists response = true ->
  associations_of response <> [] ->
  same_word raw raw2 ->
  let r := associations_of response in
  let w1 := snd (analyze_word env raw src w) in
  fst (analyze_word env raw src w) =
    inr {| result := Some r; error := None; status := COMPLETED |} /\
  word_dictionary w1 = <[normalize raw := json_data r]> (word_dictionary w) /\
  size (word_dictionary w1) = S (size (word_dictionary w)) /\
  mapM WordAssociation_validate (default [] (json_data r !! py "items")) = inr r /\
  analyze_word env2 raw2 src2 w1 =
    (inr {| result := Some r; error := None; status := COMPLETED |},
     {| word_dictionary := word_dictionary w1;
        request_history :=
          request_history w1 ++
          [{| user_id := None; source := src2; original_text := normalize raw |}];
        llm_calls := llm_calls w1 |}).
Proof.
  intros Hok Hsel2 Hcc2 Hcr2 Hdoc Hchain Hex Hne Hsame. cbv zeta.
  assert (Hgen : generated env (normalize raw) =
                 graph.UpdateResult (associations_of response)).
  { unfold generated. by rewrite Hchain, Hex. }
  destruct (associations_of response) as [|a r'] eqn:Er; [done|].
  set (r := a :: r') in *.
  assert (Hdec : mapM WordAssociation_validate (default [] (json_data r !! py "items")) = inr r).
  { rewrite json_data_items. apply validate_model_dump. }
  rewrite (analyze_word_miss env raw src w Hok Hdoc). cbv zeta.
  rewrite Hgen. simpl.
  split; [done|].
  split; [done|].
  split; [by apply map_size_insert_None|].
  split; [exact Hdec|].
  match goal with
  | |- analyze_word env2 raw2 src2 ?x = _ => set (w1 := x)
  end.
  assert (Hhit : word_dictionary w1 !! normalize raw2 = Some (json_data r)).
  { rewrite <- (normalize_same_word raw raw2 Hsame). apply lookup_insert_eq. }
  rewrite (analyze_word_hit env2 raw2 src2 w1 _ r Hsel2 Hhit Hdec Hcc2 Hcr2).
  by rewrite <- (normalize_same_word raw raw2 Hsame).
Qed.

Lemma cache_round_trip_witness :
  let r := associations_of happiness in
  let w1 := snd (analyze_word (quiet sample_chain) (py "счастье") (py "api") initial_world) in
  fst (analyze_word (quiet sample_chain) (py "счастье") (py "api") initial_world) =
    inr {| result := Some r; error := None; status := COMPLETED |} /\
  word_dictionary w1 =
    <[normalize (py "счастье") := json_data r]> (word_dictionary initial_world) /\
  size (word_dictionary w1) = S (size (word_dictionary initial_world)) /\
  mapM WordAssociation_validate (default [] (json_data r !! py "items")) = inr r /\
  analyze_word (quiet dead_chain) (py "  Счастье ") (py "bot") w1 =
    (inr {| result := Some r; error := None; status := COMPLETED |},
     {| word_dictionary := word_dictionary w1;
        request_history :=
          request_history w1 ++
          [{| user_id := None; source := py "bot";
              original_text := normalize (py "счастье") |}];
        llm_calls := llm_calls w1 |}).
Proof.
  apply (cache_round_trip (quiet sample_chain) (quiet dead_chain)
           (py "счастье") (py "  Счастье ") (py "api") (py "bot") initial_world happiness);
    try reflexivity.
  - repeat split.
  - discriminate.
  - exists [], [], (py "  "), (py " "), (py "счастье"), (py "Счастье").
    repeat split; try reflexivity.
    repeat constructor.
Defined.

End RoundTrip.

(** ** The orchestrator is total *)

Section Totality.

Import LinguisticService.

(** C10.  [analyze_word] never raises.  It always returns its dictionary,
    whose status is COMPLETED or FAILED; and whenever the body of its [try]
    statement raised, the dictionary is the one built by the matching
    [except] clause: result [None], status FAILED and an error string. *)
Theorem analyze_word_never_raises (env : Env) (raw src : str) (w : World) :
  exists (response : Response) (w' : World),
    analyze_word env raw src w = (inr response, w') /\
    (status response = COMPLETED \/ status response = FAILED) /\
    forall e w'',
      analyze_word_try env (normalize raw) src w = (inl e, w'') ->
      w'' = w' /\ response = handled e /\
      result response = None /\ status response = FAILED /\
      exists m, error response = Some m.
Proof.
  rewrite analyze_word_eq.
  destruct (analyze_word_try env (normalize raw) src w) as [[e|r] w'] eqn:Htry.
  { exists (handled e), w'. split; [done|]. split; [by right|].
    intros e' w'' [= <- <-]. unfold handled; simpl. eauto 10. }
  exists r, w'. split; [done|]. split; [|done].
  destruct (select_exc env) as [e|] eqn:Hsel.
  { by rewrite (analyze_word_try_lookup_raises env _ src w e Hsel) in Htry. }
  destruct (word_dictionary w !! normalize raw) as [doc|] eqn:Hdoc.
  { rewrite (analyze_word_try_hit env _ src w doc Hsel Hdoc) in Htry.
    destruct (mapM _ _); [done|].
    destruct (HistoryRepository.create _ _ _ _) as [[?|?] ?]; [done|].
    injection Htry as <- _. by left. }
  rewrite (analyze_word_try_miss env _ src w Hsel Hdoc) in Htry. cbv zeta in Htry.
  destruct (truthy (graph.gs_result _)).
  - destruct (DictionaryRepository.upsert _ _ _ _) as [[?|?] ?]; [done|].
    destruct (HistoryRepository.create _ _ _ _) as [[?|?] ?]; [done|].
    injection Htry as <- _. simpl. destruct (negb _); auto.
  - destruct (HistoryRepository.create _ _ _ _) as [[?|?] ?]; [done|].
    injection Htry as <- _. simpl. destruct (negb _); auto.
Qed.

End Totality.

(** ** Failures *)

Section Failures.

Import LinguisticService.

(** A generation failure with a non-empty message, storage in order, is
    answered FAILED with that message and recorded in the history. *)
Lemma generation_failure_is_recorded
    (env : Env) (raw src : str) (w : World) (m : str) :
  storage_ok env ->
  word_dictionary w !! normalize raw = None ->
  generated env (normalize raw) = graph.UpdateError m ->
  m <> [] ->
  analyze_word env raw src w =
    (inr {| result := None; error := Some m; status := FAILED |},
     {| word_dictionary := word_dictionary w;
        request_history :=
          request_history w ++
          [{| user_id := None; source := src; original_text := normalize raw |}];
        llm_calls := llm_calls w ++ [normalize raw] |}).
Proof.
  intros Hok Hdoc Hgen Hm.
  rewrite (analyze_word_miss env raw src w Hok Hdoc). cbv zeta.
  rewrite Hgen. simpl. by destruct m.
Qed.

Lemma not_found_nonempty (word : str) : not_found word <> [].
Proof. unfold not_found. discriminate. Qed.

(** The two failures the generator words itself are always answered FAILED:
    a word the chain reports as non-existent, and a chain call that fails
    with anything but a [ValueError]. *)
Lemma worded_failures_are_failed
    (env : Env) (raw src : str) (w : World) :
  storage_ok env ->
  word_dictionary w !! normalize raw = None ->
  match chain_ainvoke env (normalize raw) with
  | inr response =>
      is_exists response = false ->
      fst (analyze_word env raw src w) =
        inr {| result := None; error := Some (not_found (normalize raw)); status := FAILED |}
  | inl e =>
      isinstance e ValueError = false ->
      fst (analyze_word env raw src w) =
        inr {| result := None; error := Some llm_failed; status := FAILED |}
  end.
Proof.
  intros Hok Hdoc.
  destruct (chain_ainvoke env (normalize raw)) as [e|response] eqn:Hchain; intros H.
  - rewrite (generation_failure_is_recorded env raw src w llm_failed Hok Hdoc); [done| |done].
    unfold generated. by rewrite Hchain, H.
  - rewrite (generation_failure_is_recorded env raw src w
               (not_found (normalize raw)) Hok Hdoc);
      [done| |apply not_found_nonempty].
    unfold generated. by rewrite Hchain, H.
Qed.

(** C4.  The request is recorded in the history on every generation
    failure, but the status is not always FAILED: when the chain call fails
    with a [ValueError] whose text is empty, the node reports the empty
    string as the error, the service takes it for no error and answers
    COMPLETED with result [None] and error [""]. *)
Theorem blank_generation_failure_is_completed
    (env : Env) (raw src : str) (w : World) (e : exn) :
  storage_ok env ->
  word_dictionary w !! normalize raw = None ->
  chain_ainvoke env (normalize raw) = inl e ->
  isinstance e ValueError = true ->
  message e = [] ->
  analyze_word env raw src w =
    (inr {| result := None; error := Some []; status := COMPLETED |},
     {| word_dictionary := word_dictionary w;
        request_history :=
          request_history w ++
          [{| user_id := None; source := src; original_text := normalize raw |}];
        llm_calls := llm_calls w ++ [normalize raw] |}).
Proof.
  intros Hok Hdoc Hchain Hval Hmsg.
  rewrite (analyze_word_miss env raw src w Hok Hdoc). cbv zeta.
  unfold generated. by rewrite Hchain, Hval, Hmsg.
Qed.

Lemma blank_generation_failure_witness :
  analyze_word (quiet blank_chain) (py "слово") (py "api") initial_world =
    (inr {| result := None; error := Some []; status := COMPLETED |},
     {| word_dictionary := word_dictionary initial_world;
        request_history :=
          request_history initial_world ++
          [{| user_id := None; source := py "api";
              original_text := normalize (py "слово") |}];
        llm_calls := llm_calls initial_world ++ [normalize (py "слово")] |}).
Proof.
  apply (blank_generation_failure_is_completed
           (quiet blank_chain) (py "слово") (py "api") initial_world
           (Raise ValueError [] []));
    try reflexivity.
  repeat split.
Defined.

(** Where the claim holds: a failure of the lookup, of the upsert or of the
    commit of the history insert (or a cached row that does not decode)
    leaves no HistoryRecord, and the request is answered by the matching
    [except] clause. *)
Lemma storage_failure_writes_no_record
    (env : Env) (raw src : str) (w w' : World) (e : exn) :
  create_refresh_exc env = None ->
  analyze_word_try env (normalize raw) src w = (inl e, w') ->
  analyze_word env raw src w = (inr (handled e), w') /\
  request_history w' = request_history w.
Proof.
  intros Hcr Htry.
  split; [by rewrite analyze_word_eq, Htry|].
  destruct (select_exc env) as [e1|] eqn:Hsel.
  { rewrite (analyze_word_try_lookup_raises env _ src w e1 Hsel) in Htry.
    by injection Htry as <- <-. }
  destruct (word_dictionary w !! normalize raw) as [doc|] eqn:Hdoc.
  { rewrite (analyze_word_try_hit env _ src w doc Hsel Hdoc) in Htry.
    destruct (mapM _ _) as [e1|r]; [by injection Htry as <- <-|].
    rewrite create_eq, Hcr in Htry.
    destruct (create_commit_exc env) as [e1|]; [|done].
    by injection Htry as <- <-. }
  rewrite (analyze_word_try_miss env _ src w Hsel Hdoc) in Htry. cbv zeta in Htry.
  destruct (truthy (graph.gs_result _)).
  - rewrite upsert_eq in Htry.
    destruct (upsert_execute_exc env) as [e1|]; [by injection Htry as <- <-|].
    destruct (upsert_commit_exc env) as [e1|]; [by injection Htry as <- <-|].
    rewrite create_eq, Hcr in Htry.
    destruct (create_commit_exc env) as [e1|]; [|done].
    by injection Htry as <- <-.
  - rewrite create_eq, Hcr in Htry.
    destruct (create_commit_exc env) as [e1|]; [|done].
    by injection Htry as <- <-.
Qed.

(** A lookup that raises anything but a [ValueError] or an [AppError], an
    [SQLAlchemyError] in particular, is answered with the internal error
    text and changes nothing. *)
Lemma lookup_failure_is_answered_in_general_terms
    (env : Env) (raw src : str) (w : World) (e : exn) :
  select_exc env = Some e ->
  isinstance e ValueError = false ->
  isinstance e AppError = false ->
  analyze_word env raw src w =
    (inr {| result := None; error := Some internal_error; status := FAILED |}, w).
Proof.
  intros Hsel Hv Ha.
  rewrite analyze_word_eq, (analyze_word_try_lookup_raises env _ src w e Hsel).
  unfold handled. by rewrite Hv, Ha.
Qed.

(** C5.  The history insert is not undone when [create] raises after its
    commit.  [create] commits the new record and only then refreshes it; if
    the refresh raises, the request is answered FAILED with no result, as
    for any storage failure, but the HistoryRecord of that attempt stays
    written.  This holds on the hit path and on the miss path alike, for
    every exception the refresh raises. *)
Theorem refresh_failure_leaves_the_record
    (env : Env) (raw src : str) (w : World) (cause : exn) :
  cache_invariant w ->
  select_exc env = None ->
  upsert_execute_exc env = None ->
  upsert_commit_exc env = None ->
  create_commit_exc env = None ->
  create_refresh_exc env = Some cause ->
  exists (r : Response) (w' : World),
    analyze_word env raw src w = (inr r, w') /\
    status r = FAILED /\ result r = None /\ (exists m, error r = Some m) /\
    request_history w' =
      request_history w ++
      [{| user_id := None; source := src; original_text := normalize raw |}].
Proof.
  intros Hinv Hsel Hue Huc Hcc Hcr.
  rewrite analyze_word_eq.
  destruct (word_dictionary w !! normalize raw) as [doc|] eqn:Hdoc.
  { destruct (cached_rows_decode w _ doc Hinv Hdoc) as (l & _ & Hdec).
    rewrite (analyze_word_try_hit env _ src w doc Hsel Hdoc), Hdec.
    rewrite create_eq, Hcc, Hcr. unfold handled. simpl. eauto 10. }
  rewrite (analyze_word_try_miss env _ src w Hsel Hdoc). cbv zeta.
  destruct (truthy (graph.gs_result _)).
  - rewrite upsert_eq, Hue, Huc, create_eq, Hcc, Hcr. unfold handled. simpl. eauto 10.
  - rewrite create_eq, Hcc, Hcr. unfold handled. simpl. eauto 10.
Qed.

Lemma refresh_failure_witness :
  exists (r : Response) (w' : World),
    analyze_word refresh_fails (py "фдыва") (py "web") initial_world = (inr r, w') /\
    status r = FAILED /\ result r = None /\ (exists m, error r = Some m) /\
    request_history w' =
      request_history initial_world ++
      [{| user_id := None; source := py "web";
          original_text := normalize (py "фдыва") |}].
Proof.
  apply (refresh_failure_leaves_the_record refresh_fails (py "фдыва") (py "web")
           initial_world (Raise SQLAlchemyError (py "connection closed") []));
    try reflexivity.
  intros k doc Hdoc. simpl in Hdoc. by rewrite lookup_empty in Hdoc.
Defined.

End Failures.

(** ** The audit trail *)

Section History.

Import LinguisticService.

(** C6, as stated, fails on its own scenario: the record of the request
    ["ФДЫВА "] holds the normalized text, not the text the caller sent. *)
Lemma history_text_is_not_the_raw_input :
  request_history
    (snd (analyze_word (quiet sample_chain) (py "ФДЫВА ") (py "web") initial_world)) =
    [{| user_id := None; source := py "web"; original_text := py "фдыва" |}] /\
  py "фдыва" <> py "ФДЫВА ".
Proof. split; [vm_compute; reflexivity | discriminate]. Qed.

(** C6, amended.  A request appends at most one HistoryRecord, and its
    [original_text] is the normalized input, the same string that keys the
    cache: the only row the request can write is the one under that key, and
    the only word it can hand to the chain is that string.  In particular
    [analyze_word "ФДЫВА " "web"], with a chain that reports the word as
    non-existent, is answered FAILED with the message naming ["фдыва"],
    caches nothing and appends one record with [original_text = "фдыва"]. *)
Theorem history_records_normalized_text (env : Env) (raw src : str) (w : World) :
  let word := normalize raw in
  let w' := snd (analyze_word env raw src w) in
  (request_history w' = request_history w \/
   request_history w' =
     request_history w ++ [{| user_id := None; source := src; original_text := word |}]) /\
  (forall k, k <> word -> word_dictionary w' !! k = word_dictionary w !! k) /\
  (llm_calls w' = llm_calls w \/ llm_calls w' = llm_calls w ++ [word]) /\
  analyze_word (quiet sample_chain) (py "ФДЫВА ") (py "web") initial_world =
    (inr {| result := None; error := Some (not_found (py "фдыва")); status := FAILED |},
     {| word_dictionary := ∅;
        request_history :=
          [{| user_id := None; source := py "web"; original_text := py "фдыва" |}];
        llm_calls := [py "фдыва"] |}).
Proof.
  cbv zeta.
  destruct (analyze_word_world env raw src w) as (Hd & Hh & Hl).
  split; [exact Hh|].
  split.
  { intros k Hk. destruct Hd as [-> | (_ & _ & r & _ & _ & ->)]; [done|].
    by rewrite lookup_insert_ne. }
  split; [tauto|].
  vm_compute. reflexivity.
Qed.

(** A request on a channel either leaves the world alone (it is turned
    down by the validation) or changes it as one call of the service does,
    made with the source of that channel. *)
Lemma handle_cases (env : Env) (req : Request) (w : World) :
  handle env req w = w \/
  exists raw, handle env req w = snd (analyze_word env raw (channel_source req) w).
Proof.
  destruct req as [text|text|text]; simpl.
  - unfold web.analyze_web.
    destruct (negb (WordValidator.is_cyrillic text)); [by left|].
    right. exists text. unfold mbind, M_bind.
    by destruct (analyze_word env text _ w) as [[e|r] w'].
  - unfold linguistic.analyze_text, mbind, M_bind.
    destruct (WordValidator.validate_word text); simpl; [by left|].
    right. exists (lower (strip text)).
    destruct (analyze_word env _ _ w) as [[e|r] w']; [done|].
    by destruct (status r).
  - unfold handlers.analyze_message_text.
    destruct (negb (WordValidator.is_cyrillic (strip text))); [by left|].
    destruct (50 <? length (strip text))%nat; [by left|].
    right. exists (strip text). unfold try_except, mbind, M_bind.
    destruct (analyze_word env _ _ w) as [[e|r] w']; simpl.
    + by rewrite isinstance_Exception.
    + destruct (status r); try done; by destruct (negb (truthy (result r))).
Qed.


(** The cache invariant holds in every world the system can reach, so
    every row a request can find decodes. *)
Lemma reachable_cache_invariant (w : World) : reachable w -> cache_invariant w.
Proof.
  induction 1 as [|w env req _ IH].
  - intros k doc Hdoc. simpl in Hdoc. by rewrite lookup_empty in Hdoc.
  - destruct (handle_cases env req w) as [-> | [raw ->]]; [exact IH|].
    by apply analyze_word_invariant.
Qed.




End History.

(** * Further properties of the code *)

(** ** Validation and normalization *)

Section Alphabet.

Lemma cyrillic_char_spec (c : codepoint) :
  WordValidator.cyrillic_char c = true <->
  (0x430 <= c <= 0x44F) \/ c = 0x451 \/ (0x410 <= c <= 0x42F) \/ c = 0x401
  \/ is_space c = true \/ c = 0x2D.
Proof.
  unfold WordValidator.cyrillic_char.
  rewrite !orb_true_iff, !andb_true_iff, !N.leb_le, !N.eqb_eq. tauto.
Qed.

Lemma small_cyrillic_char_spec (c : codepoint) :
  small_cyrillic_char c = true <->
  (0x430 <= c <= 0x44F) \/ c = 0x451 \/ is_space c = true \/ c = 0x2D.
Proof.
  unfold small_cyrillic_char.
  rewrite !orb_true_iff, !andb_true_iff, !N.leb_le, !N.eqb_eq. tauto.
Qed.

(** [lower_char] on the two ranges of Cyrillic capitals, and off them. *)
Lemma lower_char_cyrillic (c : codepoint) :
  (0x410 <= c <= 0x42F -> lower_char c = c + 0x20) /\
  (0x400 <= c <= 0x40F -> lower_char c = c + 0x50) /\
  (0x100 <= c < 0x400 \/ 0x430 <= c \/ c < 0x41 \/ 0x5B <= c < 0xC0 -> lower_char c = c).
Proof.
  unfold lower_char.
  destruct (N.leb_spec 0x41 c), (N.leb_spec c 0x5A); simpl; try (repeat split; lia);
  destruct (N.leb_spec 0xC0 c), (N.leb_spec c 0xDE), (N.eqb_spec c 0xD7); simpl;
    try (repeat split; lia);
  destruct (N.leb_spec 0x400 c), (N.leb_spec c 0x40F); simpl;
    try (repeat split; lia);
  destruct (N.leb_spec 0x410 c), (N.leb_spec c 0x42F); simpl;
    repeat split; lia.
Qed.

Lemma lower_char_small (c : codepoint) :
  WordValidator.cyrillic_char c = true -> small_cyrillic_char (lower_char c) = true.
Proof.
  rewrite cyrillic_char_spec, small_cyrillic_char_spec, is_space_lower_char.
  destruct (lower_char_cyrillic c) as (Hcap & Hio & Hid).
  intros [H | [H | [H | [H | [H | H]]]]].
  - rewrite Hid by lia. lia.
  - rewrite Hid by lia. lia.
  - rewrite Hcap by lia. lia.
  - rewrite Hio by lia. lia.
  - tauto.
  - rewrite Hid by lia. lia.
Qed.

Lemma small_is_cyrillic (c : codepoint) :
  small_cyrillic_char c = true -> WordValidator.cyrillic_char c = true.
Proof. rewrite cyrillic_char_spec, small_cyrillic_char_spec. tauto. Qed.

Lemma lstrip_In (s : str) (x : codepoint) : In x (lstrip s) -> In x s.
Proof.
  induction s as [|c s IH]; simpl; [done|].
  destruct (is_space c); [auto | done].
Qed.

Lemma strip_In (s : str) (x : codepoint) : In x (strip s) -> In x s.
Proof.
  unfold strip, rstrip. intros H.
  apply lstrip_In. apply in_rev. apply lstrip_In. by apply in_rev in H.
Qed.

Lemma strip_length (s : str) : (length (strip s) <= length s)%nat.
Proof.
  assert (Hl : forall t, (length (lstrip t) <= length t)%nat).
  { induction t as [|c t IH]; simpl; [lia|]. destruct (is_space c); simpl; lia. }
  unfold strip, rstrip. rewrite length_rev.
  etransitivity; [apply Hl|]. rewrite length_rev. apply Hl.
Qed.

End Alphabet.

Section Channels.

Import LinguisticService.

Lemma handle_rejected (env : Env) (req : Request) (w : World) :
  rejected req = true -> handle env req w = w.
Proof.
  destruct req as [text|text|text]; simpl; intros H.
  - unfold web.analyze_web. by rewrite H.
  - unfold linguistic.analyze_text, WordValidator.validate_word, mbind, M_bind.
    by rewrite H.
  - unfold handlers.analyze_message_text.
    apply orb_true_iff in H as [-> | H]; [done|].
    rewrite H. by destruct (negb _).
Qed.

Lemma handle_accepted (env : Env) (req : Request) (w : World) :
  rejected req = false ->
  handle env req w = snd (analyze_word env (submitted req) (channel_source req) w).
Proof.
  destruct req as [text|text|text]; simpl; intros H.
  - unfold web.analyze_web. rewrite H. unfold mbind, M_bind.
    by destruct (analyze_word env text _ w) as [[e|r] w'].
  - unfold linguistic.analyze_text, WordValidator.validate_word, mbind, M_bind.
    rewrite H. simpl.
    destruct (analyze_word env _ _ w) as [[e|r] w']; [done|].
    by destruct (status r).
  - unfold handlers.analyze_message_text.
    apply orb_false_iff in H as [-> ->].
    unfold try_except, mbind, M_bind.
    destruct (analyze_word env _ _ w) as [[e|r] w']; simpl.
    + by rewrite isinstance_Exception.
    + destruct (status r); try done; by destruct (negb (truthy (result r))).
Qed.

Lemma normalize_submitted (req : Request) :
  normalize (submitted req) = normalize (request_text req).
Proof.
  destruct req as [text|text|text]; simpl; [done| |].
  - apply normalize_idempotent.
  - unfold normalize. by rewrite strip_idempotent.
Qed.

(** X1.  Normalization is idempotent, so the strip and lower the API router
    applies itself, and the strip of the bot, change nothing: whichever
    channel accepts a request, the service works on the normal form of the
    text the user typed, and so all channels share one cache row per word. *)
Theorem channels_share_the_cache_key (env : Env) (req : Request) (w : World) :
  rejected req = false ->
  handle env req w = snd (analyze_word env (submitted req) (channel_source req) w) /\
  normalize (submitted req) = normalize (request_text req) /\
  normalize (normalize (request_text req)) = normalize (request_text req).
Proof.
  intros H. split; [by apply handle_accepted|].
  split; [apply normalize_submitted | apply normalize_idempotent].
Qed.

Lemma channels_share_the_cache_key_witness :
  handle (quiet sample_chain) (ApiCall (py " СЧАСТЬЕ ")) initial_world =
    snd (analyze_word (quiet sample_chain) (submitted (ApiCall (py " СЧАСТЬЕ ")))
           (channel_source (ApiCall (py " СЧАСТЬЕ "))) initial_world) /\
  normalize (submitted (ApiCall (py " СЧАСТЬЕ "))) =
    normalize (request_text (ApiCall (py " СЧАСТЬЕ "))) /\
  normalize (normalize (request_text (ApiCall (py " СЧАСТЬЕ ")))) =
    normalize (request_text (ApiCall (py " СЧАСТЬЕ "))).
Proof.
  apply (channels_share_the_cache_key (quiet sample_chain) (ApiCall (py " СЧАСТЬЕ "))
           initial_world).
  reflexivity.
Defined.

Lemma is_cyrillic_forallb (text : str) :
  WordValidator.is_cyrillic text = true ->
  text <> [] /\ forallb WordValidator.cyrillic_char text = true.
Proof. destruct text; [done|]. intros H. split; [done | exact H]. Qed.

Lemma normalize_small (text : str) :
  forallb WordValidator.cyrillic_char text = true ->
  forallb small_cyrillic_char (normalize text) = true.
Proof.
  intros H. rewrite forallb_forall in *. intros x Hx.
  unfold normalize, lower in Hx. apply in_map_iff in Hx as (c & <- & Hc).
  apply lower_char_small, H. by apply strip_In.
Qed.

(** X2.  A text the validator accepts has a normal form made only of small
    Cyrillic letters, white space and hyphens: no capital letter survives.
    The normal form is no longer than the text, and it is either empty or
    again accepted by the validator. *)
Theorem validated_text_normalizes_to_small_letters (text : str) :
  WordValidator.is_cyrillic text = true ->
  forallb small_cyrillic_char (normalize text) = true /\
  (length (normalize text) <= length text)%nat /\
  (normalize text = [] \/ WordValidator.is_cyrillic (normalize text) = true).
Proof.
  intros [_ H]%is_cyrillic_forallb.
  pose proof (normalize_small text H) as Hs.
  split; [exact Hs|]. split.
  { unfold normalize, lower. rewrite length_map. apply strip_length. }
  destruct (normalize text) as [|c k] eqn:E; [by left|]. right.
  unfold WordValidator.is_cyrillic. rewrite forallb_forall in *.
  intros x Hx. by apply small_is_cyrillic, Hs.
Qed.

Lemma validated_text_witness :
  forallb small_cyrillic_char (normalize (py " Ёлка-Палка ")) = true /\
  (length (normalize (py " Ёлка-Палка ")) <= length (py " Ёлка-Палка "))%nat /\
  (normalize (py " Ёлка-Палка ") = [] \/
   WordValidator.is_cyrillic (normalize (py " Ёлка-Палка ")) = true).
Proof.
  apply (validated_text_normalizes_to_small_letters (py " Ёлка-Палка ")).
  reflexivity.
Defined.

Lemma spaces_are_cyrillic (text : str) :
  text <> [] -> spaces text -> WordValidator.is_cyrillic text = true.
Proof.
  intros Hne Hsp. destruct text as [|c t]; [done|].
  unfold WordValidator.is_cyrillic. unfold spaces in Hsp.
  rewrite forallb_forall in *. intros x Hx.
  apply cyrillic_char_spec. right; right; right; right; left. by apply Hsp.
Qed.

Lemma strip_spaces (text : str) : spaces text -> strip text = [].
Proof. intros H. unfold strip. by rewrite (lstrip_spaces text H). Qed.

(** X3.  A text of white space only passes the validation of the web form
    and of the API, since white space belongs to the accepted class; it
    reaches the service as the empty word, which on a miss is handed to the
    language model.  The bot strips before it validates and turns such a
    text down without a trace. *)
Theorem blank_text_reaches_the_generator (env : Env) (text : str) (w : World) :
  text <> [] ->
  spaces text ->
  select_exc env = None ->
  word_dictionary w !! [] = None ->
  rejected (WebForm text) = false /\
  llm_calls (handle env (WebForm text) w) = llm_calls w ++ [[]] /\
  rejected (ApiCall text) = false /\
  llm_calls (handle env (ApiCall text) w) = llm_calls w ++ [[]] /\
  handle env (BotMessage text) w = w.
Proof.
  intros Hne Hsp Hsel Hdoc.
  pose proof (spaces_are_cyrillic text Hne Hsp) as Hcyr.
  pose proof (strip_spaces text Hsp) as Hstrip.
  assert (Hn : normalize text = []) by (unfold normalize; by rewrite Hstrip).
  assert (Hrej : rejected (WebForm text) = false) by (simpl; by rewrite Hcyr).
  split; [exact Hrej|]. split.
  { rewrite (handle_accepted env (WebForm text) w Hrej). simpl.
    rewrite analyze_word_miss_calls; rewrite ?Hn; done. }
  split; [exact Hrej|]. split.
  { rewrite (handle_accepted env (ApiCall text) w Hrej). simpl.
    rewrite Hstrip. simpl.
    by rewrite (analyze_word_miss_calls env [] (py "api") w Hsel Hdoc). }
  apply handle_rejected. simpl. by rewrite Hstrip.
Qed.

Lemma blank_text_witness :
  rejected (WebForm (py "  ")) = false /\
  llm_calls (handle (quiet sample_chain) (WebForm (py "  ")) initial_world) =
    llm_calls initial_world ++ [[]] /\
  rejected (ApiCall (py "  ")) = false /\
  llm_calls (handle (quiet sample_chain) (ApiCall (py "  ")) initial_world) =
    llm_calls initial_world ++ [[]] /\
  handle (quiet sample_chain) (BotMessage (py "  ")) initial_world = initial_world.
Proof.
  apply (blank_text_reaches_the_generator (quiet sample_chain) (py "  ") initial_world);
    try reflexivity.
  discriminate.
Defined.

(** X4.  Whatever text the bot receives, a word it hands on to the language
    model is non-empty, at most 50 characters long and made of small
    Cyrillic letters, white space and hyphens; and it hands on at most one
    word per message. *)
Theorem bot_words_are_bounded (env : Env) (text : str) (w : World) :
  llm_calls (handle env (BotMessage text) w) = llm_calls w \/
  exists k,
    llm_calls (handle env (BotMessage text) w) = llm_calls w ++ [k] /\
    k <> [] /\ (length k <= 50)%nat /\
    forallb small_cyrillic_char k = true.
Proof.
  destruct (rejected (BotMessage text)) eqn:Hrej.
  { left. by rewrite handle_rejected. }
  rewrite (handle_accepted env _ w Hrej).
  simpl in Hrej. apply orb_false_iff in Hrej as [Hcyr Hlen].
  apply negb_false_iff in Hcyr. apply Nat.ltb_ge in Hlen.
  destruct (analyze_word_world env (submitted (BotMessage text))
              (channel_source (BotMessage text)) w) as (_ & _ & [H | (_ & _ & H)]);
    [by left|].
  right. eexists. split; [exact H|]. simpl.
  assert (Hn : normalize (strip text) = lower (strip text)).
  { unfold normalize. by rewrite strip_idempotent. }
  rewrite Hn.
  apply is_cyrillic_forallb in Hcyr as [Hne Hall].
  split.
  { destruct (strip text); [done | discriminate]. }
  split.
  { unfold lower. by rewrite length_map. }
  rewrite <- Hn. by apply normalize_small.
Qed.

End Channels.

(** ** Rows and repositories *)

Section Rows.

Import LinguisticService.

(** X5.  Dumping and validating an association are inverse to each other:
    a dumped list decodes to itself, a stored item decodes only if its type
    is "synonym" or "antonym", and then dumping the result gives the item
    back. *)
Theorem association_round_trip (r : list WordAssociation) (item : JsonItem) :
  mapM WordAssociation_validate (map model_dump r) = inr r /\
  (forall a, WordAssociation_validate item = inr a -> model_dump a = item) /\
  ((exists a, WordAssociation_validate item = inr a) <->
   j_type item = py "synonym" \/ j_type item = py "antonym").
Proof.
  split; [apply validate_model_dump|].
  destruct item as [word type]. unfold WordAssociation_validate. simpl.
  split.
  - intros a. repeat case_decide; intros [= <-]; unfold model_dump; simpl; by subst.
  - repeat case_decide;
      (split;
       [ intros [a Ha]; first [by auto | discriminate Ha]
       | intros Hor; first [by eauto | by destruct Hor] ]).
Qed.

(** X6.  What an upsert leaves in the table, and what a later request
    finds there.  When execute and commit go through, the table holds the
    value written under the word; a look-up of that word by a later request,
    in a session of its own whose select goes through, finds the row with
    that value; writing a second time under the same word replaces the first
    value (last write wins) without adding a row; no other word's entry
    changes; the history and the calls of the generator stay as they were. *)
Theorem upsert_then_lookup
    (env later : Env) (word : str) (doc doc2 : gmap str (list JsonItem)) (w : World) :
  upsert_execute_exc env = None ->
  upsert_commit_exc env = None ->
  select_exc later = None ->
  let w1 := snd (DictionaryRepository.upsert env word doc w) in
  let w2 := snd (DictionaryRepository.upsert env word doc2 w1) in
  word_dictionary w1 !! word = Some doc /\
  DictionaryRepository.get_by_word later word w1 =
    (inr (Some {| wd_word := word; wd_associations := doc |}), w1) /\
  w2 = snd (DictionaryRepository.upsert env word doc2 w) /\
  size (word_dictionary w2) = size (word_dictionary w1) /\
  (forall k, k <> word -> word_dictionary w1 !! k = word_dictionary w !! k) /\
  request_history w1 = request_history w /\ llm_calls w1 = llm_calls w.
Proof.
  intros He Hc Hs. cbv zeta.
  rewrite !upsert_eq, He, Hc. simpl.
  rewrite get_by_word_eq, Hs. simpl.
  rewrite lookup_insert_eq. split; [done|]. split; [done|].
  split. { unfold put_word. simpl. by rewrite insert_insert_eq. }
  split.
  { apply map_size_insert_Some. rewrite lookup_insert_eq. eauto. }
  split; [|done].
  intros k Hk. by rewrite lookup_insert_ne.
Qed.

Lemma upsert_then_lookup_witness :
  let env := quiet sample_chain in
  let later := quiet empty_chain in
  let word := py "дом" in
  let doc := json_data [{| wa_word := py "жилище"; wa_type := SYNONYM |}] in
  let doc2 := json_data [{| wa_word := py "изба"; wa_type := SYNONYM |}] in
  let w1 := snd (DictionaryRepository.upsert env word doc cached_world) in
  let w2 := snd (DictionaryRepository.upsert env word doc2 w1) in
  word_dictionary w1 !! word = Some doc /\
  DictionaryRepository.get_by_word later word w1 =
    (inr (Some {| wd_word := word; wd_associations := doc |}), w1) /\
  w2 = snd (DictionaryRepository.upsert env word doc2 cached_world) /\
  size (word_dictionary w2) = size (word_dictionary w1) /\
  (forall k, k <> word -> word_dictionary w1 !! k = word_dictionary cached_world !! k) /\
  request_history w1 = request_history cached_world /\
  llm_calls w1 = llm_calls cached_world.
Proof.
  apply (upsert_then_lookup (quiet sample_chain) (quiet empty_chain) (py "дом"));
    reflexivity.
Defined.

(** X7.  The repository methods are all-or-nothing towards the tables,
    whatever the session does.  An upsert that returns went through execute
    and commit and has put the value under the word, leaving the history
    alone; one that raises failed in execute or in commit and leaves both
    tables as they were.  A create never touches the cache; its record is
    in the history exactly when the commit went through, so a create that
    returns has appended it, one that fails in the commit has written
    nothing, and one that fails in the refresh raises with the record
    written.  The look-up changes nothing and translates nothing: it raises
    exactly what the session raised. *)
Theorem repository_writes_are_all_or_nothing
    (env : Env) (word src text : str) (doc : gmap str (list JsonItem)) (w : World) :
  let record := {| user_id := None; source := src; original_text := text |} in
  match DictionaryRepository.upsert env word doc w with
  | (inr _, w') =>
      upsert_execute_exc env = None /\ upsert_commit_exc env = None /\
      word_dictionary w' = <[word := doc]> (word_dictionary w) /\
      request_history w' = request_history w
  | (inl _, w') =>
      w' = w /\ (is_Some (upsert_execute_exc env) \/ is_Some (upsert_commit_exc env))
  end /\
  match HistoryRepository.create env src text w with
  | (inr _, w') =>
      create_commit_exc env = None /\ create_refresh_exc env = None /\
      word_dictionary w' = word_dictionary w /\
      request_history w' = request_history w ++ [record]
  | (inl _, w') =>
      word_dictionary w' = word_dictionary w /\
      (is_Some (create_commit_exc env) /\ request_history w' = request_history w \/
       create_commit_exc env = None /\ is_Some (create_refresh_exc env) /\
       request_history w' = request_history w ++ [record])
  end /\
  match DictionaryRepository.get_by_word env word w with
  | (inr _, w') => w' = w /\ select_exc env = None
  | (inl e, w') => w' = w /\ select_exc env = Some e
  end.
Proof.
  rewrite upsert_eq, create_eq, get_by_word_eq. cbv zeta.
  split; [|split].
  - destruct (upsert_execute_exc env) as [c|]; [by eauto|].
    destruct (upsert_commit_exc env) as [c|]; [by eauto|done].
  - destruct (create_commit_exc env) as [c|]; [by eauto|].
    destruct (create_refresh_exc env) as [c|]; simpl; [|done].
    split; [done|]. right. eauto.
  - by destruct (select_exc env).
Qed.

End Rows.

(** ** The chain *)

Section Chain.

(** X8.  [chains.analyze_word] raises only two kinds of exception: a
    [ValueError] (the word is not in the language, or a [ValueError] of the
    chain passed on as it is) or an [ExternalAPIError] with the fixed
    message, whose details name the cause and the word.  Every call, failed
    or not, reaches the language model exactly once and touches neither the
    cache nor the history. *)
Theorem chain_raises_value_or_external_error (env : Env) (word : str) (w : World) :
  snd (chains.analyze_word env word w) = log_llm_call word w /\
  match fst (chains.analyze_word env word w) with
  | inr r =>
      exists response, chain_ainvoke env word = inr response /\
        is_exists response = true /\ r = associations_of response
  | inl e =>
      (isinstance e ValueError = true /\
       (chain_ainvoke env word = inl e \/
        e = Raise ValueError (not_found word) [] /\
        exists response, chain_ainvoke env word = inr response /\
                         is_exists response = false)) \/
      (exists cause, chain_ainvoke env word = inl cause /\
         isinstance cause ValueError = false /\
         e = Raise ExternalAPIError llm_failed
               [(py "error", message cause); (py "word", word)])
  end.
Proof.
  rewrite chains_analyze_word_eq. simpl. split; [done|].
  destruct (chain_ainvoke env word) as [cause|response] eqn:Hc.
  - destruct (isinstance cause ValueError) eqn:Hv; [left; auto|].
    right. eauto.
  - destruct (is_exists response) eqn:Hex; [eauto|].
    left. split; [by vm_compute|]. right. eauto.
Qed.

Lemma words_of_tagged (t : AssociationType) (syn ant : list str) :
  map wa_word
    (filter (λ item, AssociationType_value (wa_type item) = AssociationType_value t)
       (map (λ s, {| wa_word := s; wa_type := SYNONYM |}) syn ++
        map (λ s, {| wa_word := s; wa_type := ANTONYM |}) ant)) =
  match t with SYNONYM => syn | ANTONYM => ant end.
Proof.
  rewrite filter_app, map_app.
  assert (Hkeep : forall (u : AssociationType) (l : list str),
            map wa_word
              (filter (λ item, AssociationType_value (wa_type item) = AssociationType_value t)
                 (map (λ s, {| wa_word := s; wa_type := u |}) l)) =
            match u, t with
            | SYNONYM, SYNONYM | ANTONYM, ANTONYM => l
            | _, _ => []
            end).
  { intros u l. induction l as [|x l IH]; simpl; [by destruct u, t|].
    rewrite filter_cons. simpl.
    destruct u, t; simpl in *; try case_decide; try done; simpl; by rewrite ?IH. }
  rewrite !Hkeep. destruct t; simpl; by rewrite ?app_nil_r.
Qed.

(** X9.  For a word the language model knows, the association list is the
    synonyms in their order followed by the antonyms in theirs, duplicates
    kept; so what the bot shows as synonyms (and as antonyms) is exactly
    the list of the language model with repeated words dropped. *)
Theorem associations_keep_order
    (env : Env) (word : str) (w : World) (response : AnalysisResponse) :
  chain_ainvoke env word = inr response ->
  is_exists response = true ->
  exists r,
    fst (chains.analyze_word env word w) = inr r /\
    map wa_word r = synonyms response ++ antonyms response /\
    map wa_type r =
      replicate (length (synonyms response)) SYNONYM ++
      replicate (length (antonyms response)) ANTONYM /\
    handlers.words_of SYNONYM r = handlers.dict_fromkeys (synonyms response) /\
    handlers.words_of ANTONYM r = handlers.dict_fromkeys (antonyms response).
Proof.
  intros Hc Hex. exists (associations_of response).
  rewrite chains_analyze_word_eq, Hc, Hex. simpl. split; [done|].
  unfold associations_of.
  split. { rewrite map_app, !map_map. simpl. by rewrite !map_id. }
  split.
  { rewrite map_app, !map_map. simpl.
    f_equal; [generalize (synonyms response) | generalize (antonyms response)];
      intros l; induction l; simpl; by f_equal. }
  unfold handlers.words_of.
  by rewrite (words_of_tagged SYNONYM), (words_of_tagged ANTONYM).
Qed.

Lemma associations_keep_order_witness :
  exists r,
    fst (chains.analyze_word (quiet sample_chain) (py "счастье") initial_world) = inr r /\
    map wa_word r = synonyms happiness ++ antonyms happiness /\
    map wa_type r =
      replicate (length (synonyms happiness)) SYNONYM ++
      replicate (length (antonyms happiness)) ANTONYM /\
    handlers.words_of SYNONYM r = handlers.dict_fromkeys (synonyms happiness) /\
    handlers.words_of ANTONYM r = handlers.dict_fromkeys (antonyms happiness).
Proof.
  apply (associations_keep_order (quiet sample_chain) (py "счастье") initial_world happiness);
    reflexivity.
Defined.

End Chain.

(** ** Answers of the service *)

Section Answers.

Import LinguisticService.

(** The service always answers, with status COMPLETED or FAILED. *)
Lemma answer_shape_total (env : Env) (raw src : str) (w : World) :
  exists (r : Response) (w' : World),
    analyze_word env raw src w = (inr r, w') /\
    (status r = FAILED \/ status r = COMPLETED).
Proof.
  rewrite analyze_word_eq.
  destruct (select_exc env) as [e|] eqn:Hsel.
  { rewrite (analyze_word_try_lookup_raises env _ src w e Hsel). eauto. }
  destruct (word_dictionary w !! normalize raw) as [doc|] eqn:Hdoc.
  { rewrite (analyze_word_try_hit env _ src w doc Hsel Hdoc).
    destruct (mapM _ _) as [e|l]; [eauto|].
    destruct (HistoryRepository.create _ _ _ _) as [[e|?] w']; eauto. }
  rewrite (analyze_word_try_miss env _ src w Hsel Hdoc). cbv zeta.
  destruct (truthy (graph.gs_result _)).
  - destruct (DictionaryRepository.upsert _ _ _ _) as [[e|?] w2]; [eauto|].
    destruct (HistoryRepository.create _ _ _ _) as [[e|?] w']; [eauto|].
    do 2 eexists. split; [done|]. simpl. destruct (negb _); auto.
  - destruct (HistoryRepository.create _ _ _ _) as [[e|?] w']; [eauto|].
    do 2 eexists. split; [done|]. simpl. destruct (negb _); auto.
Qed.

(** X10.  The shape of every answer.  A result and an error never come
    together.  An answer is FAILED with no result and an error text, or
    COMPLETED with a result and no error; the one exception is the
    COMPLETED answer with no result and the empty error text, given only
    when the chain call failed with a [ValueError] without text. *)
Theorem answer_shape (env : Env) (raw src : str) (w : World) :
  exists (r : Response) (w' : World),
    analyze_word env raw src w = (inr r, w') /\
    ((status r = FAILED /\ result r = None /\ exists m, error r = Some m) \/
     (status r = COMPLETED /\ error r = None /\ exists l, result r = Some l) \/
     (status r = COMPLETED /\ error r = Some [] /\ result r = None /\
      exists e, chain_ainvoke env (normalize raw) = inl e /\
                isinstance e ValueError = true /\ message e = [])).
Proof.
  rewrite analyze_word_eq.
  assert (Hh : forall e, status (handled e) = FAILED /\ result (handled e) = None /\
                         exists m, error (handled e) = Some m).
  { intros e. unfold handled. simpl. eauto. }
  destruct (select_exc env) as [e|] eqn:Hsel.
  { rewrite (analyze_word_try_lookup_raises env _ src w e Hsel). eauto 10. }
  destruct (word_dictionary w !! normalize raw) as [doc|] eqn:Hdoc.
  { rewrite (analyze_word_try_hit env _ src w doc Hsel Hdoc).
    destruct (mapM _ _) as [e|l]; [eauto 10|].
    destruct (HistoryRepository.create _ _ _ _) as [[e|?] w']; [eauto 10|].
    do 2 eexists. split; [done|]. right; left. simpl. eauto. }
  rewrite (analyze_word_try_miss env _ src w Hsel Hdoc). cbv zeta.
  unfold generated.
  destruct (chain_ainvoke env (normalize raw)) as [e|response] eqn:Hc; simpl.
  - rewrite create_eq.
    destruct (create_commit_exc env); [eauto 10|].
    destruct (create_refresh_exc env); [eauto 10|].
    do 2 eexists. split; [done|]. simpl.
    destruct (isinstance e ValueError) eqn:Hv; [|left; eauto].
    destruct (message e) as [|c m] eqn:Hm; simpl; [|left; eauto].
    right; right. eauto 10.
  - destruct (is_exists response); simpl.
    + destruct (associations_of response) as [|a l]; simpl.
      * rewrite create_eq.
        destruct (create_commit_exc env); [eauto 10|].
        destruct (create_refresh_exc env); [eauto 10|].
        do 2 eexists. split; [done|]. right; left. simpl. eauto.
      * rewrite upsert_eq.
        destruct (upsert_execute_exc env); [eauto 10|].
        destruct (upsert_commit_exc env); [eauto 10|].
        rewrite create_eq.
        destruct (create_commit_exc env); [eauto 10|].
        destruct (create_refresh_exc env); [eauto 10|].
        do 2 eexists. split; [done|]. right; left. simpl. eauto.
    + rewrite create_eq.
      destruct (create_commit_exc env); [eauto 10|].
      destruct (create_refresh_exc env); [eauto 10|].
      do 2 eexists. split; [done|]. left. simpl. eauto.
Qed.

(** X11.  A COMPLETED answer with a non-empty list is always backed by the
    cache: after the call, whatever the collaborators did, the row under the
    normalized word exists and decodes to exactly the list returned.  The
    world after the call is the one this request leaves when it runs from
    start to end on its own; requests that overlap it are not part of the
    statement. *)
Theorem completed_answers_are_cached
    (env : Env) (raw src : str) (w : World) (r : Response) (l : list WordAssociation) :
  fst (analyze_word env raw src w) = inr r ->
  status r = COMPLETED ->
  result r = Some l ->
  l <> [] ->
  exists doc,
    word_dictionary (snd (analyze_word env raw src w)) !! normalize raw = Some doc /\
    mapM WordAssociation_validate (default [] (doc !! py "items")) = inr l.
Proof.
  rewrite analyze_word_eq. intros Hr Hst Hres Hl.
  destruct (select_exc env) as [e|] eqn:Hsel.
  { rewrite (analyze_word_try_lookup_raises env _ src w e Hsel) in Hr.
    injection Hr as <-. done. }
  destruct (word_dictionary w !! normalize raw) as [doc|] eqn:Hdoc.
  { rewrite (analyze_word_try_hit env _ src w doc Hsel Hdoc) in Hr |- *.
    destruct (mapM _ _) as [e|a] eqn:Hdec; [injection Hr as <-; done|].
    rewrite create_eq in Hr |- *.
    destruct (create_commit_exc env); [injection Hr as <-; done|].
    destruct (create_refresh_exc env); [injection Hr as <-; done|].
    injection Hr as <-. simpl in *. injection Hres as <-. eauto. }
  rewrite (analyze_word_try_miss env _ src w Hsel Hdoc) in Hr |- *.
  cbv zeta in Hr |- *.
  destruct (generated env (normalize raw)) as [g|m]; simpl in Hr |- *.
  - destruct g as [|a g]; simpl in Hr |- *.
    + rewrite create_eq in Hr.
      destruct (create_commit_exc env); [injection Hr as <-; done|].
      destruct (create_refresh_exc env); [injection Hr as <-; done|].
      injection Hr as <-. simpl in Hres. by injection Hres as <-.
    + rewrite upsert_eq in Hr |- *.
      destruct (upsert_execute_exc env); [injection Hr as <-; done|].
      destruct (upsert_commit_exc env); [injection Hr as <-; done|].
      rewrite create_eq in Hr |- *.
      destruct (create_commit_exc env); [injection Hr as <-; done|].
      destruct (create_refresh_exc env); [injection Hr as <-; done|].
      injection Hr as <-. simpl in Hres. injection Hres as <-. simpl.
      exists (json_data (a :: g)). rewrite lookup_insert_eq. split; [done|].
      rewrite json_data_items. apply validate_model_dump.
  - rewrite create_eq in Hr.
    destruct (create_commit_exc env); [injection Hr as <-; done|].
    destruct (create_refresh_exc env); [injection Hr as <-; done|].
    injection Hr as <-. done.
Qed.

Lemma completed_answers_witness :
  exists doc,
    word_dictionary
      (snd (analyze_word (quiet sample_chain) (py "Счастье") (py "web") initial_world))
      !! normalize (py "Счастье") = Some doc /\
    mapM WordAssociation_validate (default [] (doc !! py "items")) =
      inr (associations_of happiness).
Proof.
  apply (completed_answers_are_cached (quiet sample_chain) (py "Счастье") (py "web")
           initial_world
           {| result := Some (associations_of happiness); error := None;
              status := COMPLETED |});
    try reflexivity.
  discriminate.
Defined.

(** X12.  The cache write is not undone when the history write fails.  On a
    miss with a non-empty generated list, if the upsert goes through and the
    commit of the history insert raises, the request is answered FAILED
    with no history record, yet the row stays in the cache, and the next
    request for the word is a hit that returns the list without a call of
    the language model. *)
Theorem failed_request_can_fill_the_cache
    (env env2 : Env) (raw src src2 : str) (w : World)
    (response : AnalysisResponse) (cause : exn) :
  select_exc env = None ->
  upsert_execute_exc env = None ->
  upsert_commit_exc env = None ->
  create_commit_exc env = Some cause ->
  storage_ok env2 ->
  word_dictionary w !! normalize raw = None ->
  chain_ainvoke env (normalize raw) = inr response ->
  is_exists response = true ->
  associations_of response <> [] ->
  let w1 := snd (analyze_word env raw src w) in
  fst (analyze_word env raw src w) = inr (handled (translated create_failed cause)) /\
  request_history w1 = request_history w /\
  word_dictionary w1 !! normalize raw = Some (json_data (associations_of response)) /\
  fst (analyze_word env2 raw src2 w1) =
    inr {| result := Some (associations_of response); error := None;
           status := COMPLETED |} /\
  llm_calls (snd (analyze_word env2 raw src2 w1)) = llm_calls w1.
Proof.
  intros Hsel Hue Huc Hcc (Hsel2 & _ & _ & Hcc2 & Hcr2) Hdoc Hchain Hex Hne. cbv zeta.
  assert (Hgen : generated env (normalize raw) =
                 graph.UpdateResult (associations_of response)).
  { unfold generated. by rewrite Hchain, Hex. }
  destruct (associations_of response) as [|a r'] eqn:Er; [done|].
  rewrite analyze_word_eq, (analyze_word_try_miss env _ src w Hsel Hdoc). cbv zeta.
  rewrite Hgen. simpl. rewrite upsert_eq, Hue, Huc, create_eq, Hcc. simpl.
  split; [done|]. split; [done|].
  rewrite lookup_insert_eq. split; [done|].
  match goal with
  | |- context [analyze_word env2 raw src2 ?x] => set (w1 := x)
  end.
  assert (Hhit : word_dictionary w1 !! normalize raw = Some (json_data (a :: r'))).
  { apply lookup_insert_eq. }
  assert (Hdec : mapM WordAssociation_validate
                   (default [] (json_data (a :: r') !! py "items")) = inr (a :: r')).
  { rewrite json_data_items. apply validate_model_dump. }
  by rewrite (analyze_word_hit env2 raw src2 w1 _ _ Hsel2 Hhit Hdec Hcc2 Hcr2).
Qed.

Lemma failed_request_witness :
  let env :=
    {| select_exc := None; upsert_execute_exc := None; upsert_commit_exc := None;
       create_commit_exc := Some (Raise SQLAlchemyError (py "disk full") []);
       create_refresh_exc := None; chain_ainvoke := sample_chain |} in
  let w1 := snd (analyze_word env (py "счастье") (py "web") initial_world) in
  fst (analyze_word env (py "счастье") (py "web") initial_world) =
    inr (handled (translated create_failed (Raise SQLAlchemyError (py "disk full") []))) /\
  request_history w1 = request_history initial_world /\
  word_dictionary w1 !! normalize (py "счастье") =
    Some (json_data (associations_of happiness)) /\
  fst (analyze_word (quiet dead_chain) (py "счастье") (py "api") w1) =
    inr {| result := Some (associations_of happiness); error := None;
           status := COMPLETED |} /\
  llm_calls (snd (analyze_word (quiet dead_chain) (py "счастье") (py "api") w1)) =
    llm_calls w1.
Proof.
  apply (failed_request_can_fill_the_cache _ (quiet dead_chain) (py "счастье") (py "web")
           (py "api") initial_world happiness);
    try reflexivity.
  - repeat split.
  - discriminate.
Defined.

End Answers.

(** ** What the stores hold over time *)

Section Stores.

Import LinguisticService.

Lemma handle_grows (env : Env) (req : Request) (w : World) :
  request_history w `prefix_of` request_history (handle env req w) /\
  (length (request_history (handle env req w)) <= S (length (request_history w)))%nat /\
  word_dictionary w ⊆ word_dictionary (handle env req w) /\
  llm_calls w `prefix_of` llm_calls (handle env req w).
Proof.
  destruct (handle_cases env req w) as [-> | [raw ->]].
  { repeat split; try reflexivity. lia. }
  destruct (analyze_word_world env raw (channel_source req) w) as (Hd & Hh & Hl).
  split; [|split; [|split]].
  - destruct Hh as [-> | ->]; [done | by apply prefix_app_r].
  - destruct Hh as [-> | ->]; [lia | rewrite length_app; simpl; lia].
  - destruct Hd as [-> | (_ & Hnone & r & _ & _ & ->)]; [done|].
    by apply insert_subseteq.
  - destruct Hl as [-> | (_ & _ & ->)]; [done | by apply prefix_app_r].
Qed.

(** X13.  Nothing stored is ever changed or removed.  Over any sequence of
    requests on any channels, handled one after the other, with any failures
    of the collaborators, the history keeps its records as a prefix and
    grows by at most one record per request, every cache row that was there
    is still there with the same value, and the calls of the language model
    only accumulate.  Requests that overlap in time are not part of the
    statement. *)
Theorem stored_data_only_grows (steps : list (Env * Request)) (w : World) :
  request_history w `prefix_of` request_history (run steps w) /\
  (length (request_history (run steps w)) <= length (request_history w) + length steps)%nat /\
  word_dictionary w ⊆ word_dictionary (run steps w) /\
  llm_calls w `prefix_of` llm_calls (run steps w).
Proof.
  revert w. induction steps as [|[env req] steps IH]; intros w; simpl.
  { repeat split; try done. lia. }
  destruct (handle_grows env req w) as (H1 & H2 & H3 & H4).
  destruct (IH (handle env req w)) as (I1 & I2 & I3 & I4).
  repeat split.
  - by etransitivity.
  - lia.
  - by etransitivity.
  - by etransitivity.
Qed.

Lemma handle_cache_keys (env : Env) (req : Request) (w : World) :
  (word_dictionary (handle env req w) = word_dictionary w /\
   llm_calls w `prefix_of` llm_calls (handle env req w)) \/
  exists k doc,
    word_dictionary w !! k = None /\
    word_dictionary (handle env req w) = <[k := doc]> (word_dictionary w) /\
    llm_calls (handle env req w) = llm_calls w ++ [k].
Proof.
  destruct (handle_cases env req w) as [-> | [raw ->]]; [by left|].
  destruct (analyze_word_world env raw (channel_source req) w)
    as ([Hd | (Hsel & Hnone & r & _ & _ & Hd)] & _ & Hl).
  - left. split; [done|].
    destruct Hl as [-> | (_ & _ & ->)]; [done | by apply prefix_app_r].
  - right. exists (normalize raw), (json_data r). split; [done|]. split; [done|].
    by apply analyze_word_miss_calls.
Qed.

(** X14.  Every cached word was generated.  In every world the system can
    reach, each key of the cache is a word that was handed to the language
    model, and the cache has no more rows than there were calls of the
    language model. *)
Theorem cached_words_were_generated (w : World) :
  reachable w ->
  (forall k, is_Some (word_dictionary w !! k) -> k ∈ llm_calls w) /\
  (size (word_dictionary w) <= length (llm_calls w))%nat.
Proof.
  induction 1 as [|w env req _ [IHk IHs]].
  { split; [|simpl; by rewrite map_size_empty].
    intros k [doc Hk]. simpl in Hk. by rewrite lookup_empty in Hk. }
  destruct (handle_cache_keys env req w) as [[-> [ext Hl]] | (k & doc & Hnone & -> & ->)].
  - rewrite Hl. split.
    + intros k Hk. apply elem_of_app. left. by apply IHk.
    + rewrite length_app. lia.
  - split.
    + intros k' Hk'. apply elem_of_app.
      destruct (decide (k = k')) as [<-|Hne]; [right; set_solver|].
      left. apply IHk. by rewrite lookup_insert_ne in Hk'.
    + rewrite map_size_insert_None by done. rewrite length_app. simpl. lia.
Qed.

Lemma cached_words_witness :
  (forall k,
     is_Some (word_dictionary
                (handle (quiet sample_chain) (WebForm (py "Счастье")) initial_world) !! k) ->
     k ∈ llm_calls (handle (quiet sample_chain) (WebForm (py "Счастье")) initial_world)) /\
  (size (word_dictionary
           (handle (quiet sample_chain) (WebForm (py "Счастье")) initial_world)) <=
   length (llm_calls
             (handle (quiet sample_chain) (WebForm (py "Счастье")) initial_world)))%nat.
Proof.
  apply cached_words_were_generated.
  apply reachable_handle, reachable_initial.
Defined.

Lemma reachable_history_anonymous (w : World) :
  reachable w ->
  Forall (λ record, user_id record = None /\
                    normalize (original_text record) = original_text record)
         (request_history w).
Proof.
  induction 1 as [|w env req _ IH]; [constructor|].
  destruct (handle_cases env req w) as [-> | [raw ->]]; [exact IH|].
  destruct (analyze_word_world env raw (channel_source req) w) as (_ & [-> | ->] & _);
    [exact IH|].
  apply Forall_app. split; [exact IH|].
  constructor; [|constructor]. simpl. split; [done | apply normalize_idempotent].
Qed.

(** X15.  A request leaves a history record exactly when its channel
    accepts it.  In a reachable world with the storage in order, a request
    turned down by the validation leaves the history as it was, and an
    accepted one appends exactly one record, with the source of its channel
    and the normal form of the text the user sent. *)
Theorem accepted_requests_are_recorded (env : Env) (req : Request) (w : World) :
  reachable w ->
  storage_ok env ->
  request_history (handle env req w) =
    if rejected req then request_history w
    else request_history w ++
         [{| user_id := None; source := channel_source req;
             original_text := normalize (request_text req) |}].
Proof.
  intros Hreach Hok.
  destruct (rejected req) eqn:Hrej; [by rewrite handle_rejected|].
  rewrite (handle_accepted env req w Hrej), <- normalize_submitted.
  destruct (word_dictionary w !! normalize (submitted req)) as [doc|] eqn:Hdoc.
  - destruct (cached_rows_decode w _ doc (reachable_cache_invariant w Hreach) Hdoc)
      as (r & _ & Hdec).
    destruct Hok as (Hsel & _ & _ & Hcc & Hcr).
    by rewrite (analyze_word_hit env _ _ w doc r Hsel Hdoc Hdec Hcc Hcr).
  - by rewrite (analyze_word_miss env _ _ w Hok Hdoc).
Qed.

Lemma accepted_requests_witness :
  request_history (handle (quiet sample_chain) (BotMessage (py " Счастье ")) initial_world) =
    if rejected (BotMessage (py " Счастье ")) then request_history initial_world
    else request_history initial_world ++
         [{| user_id := None; source := channel_source (BotMessage (py " Счастье "));
             original_text := normalize (request_text (BotMessage (py " Счастье "))) |}].
Proof.
  apply accepted_requests_are_recorded.
  - apply reachable_initial.
  - repeat split.
Defined.

(** X16.  The history of a user.  The query returns at most [limit]
    records, all of them records of that user taken from the history, and
    changes nothing; it raises exactly what the session raised.  Since no
    channel passes a user to the service, every record is anonymous and in
    every world the system can reach the history of any user is empty. *)
Theorem history_of_a_user (exc : option exn) (uid : N) (skip limit : nat) (w : World) :
  match get_by_user_id exc uid skip limit w with
  | (inl e, w') => w' = w /\ exc = Some e
  | (inr records, w') =>
      w' = w /\ exc = None /\ (length records <= limit)%nat /\
      Forall (λ record, user_id record = Some uid /\ record ∈ request_history w) records /\
      (reachable w -> records = [])
  end.
Proof.
  unfold get_by_user_id, mbind, M_bind, await.
  destruct exc as [e|]; simpl; [done|].
  split; [done|]. split; [done|].
  split; [rewrite length_take; lia|].
  split.
  - apply Forall_forall. intros record Hin.
    apply subseteq_take, subseteq_drop in Hin.
    apply list_elem_of_In, in_rev, list_elem_of_In, list_elem_of_filter in Hin. tauto.
  - intros Hreach.
    assert (Hnone : filter (λ record, user_id record = Some uid) (request_history w) = []).
    { pose proof (reachable_history_anonymous w Hreach) as Hall.
      induction (request_history w) as [|record h IH]; [done|].
      apply Forall_cons_1 in Hall as [[Hu _] Hall].
      rewrite filter_cons. case_decide; [congruence | by apply IH]. }
    rewrite Hnone. simpl. by rewrite drop_nil, take_nil.
Qed.

End Stores.

(** ** What the channels answer *)

Section Replies.

Import LinguisticService.

Lemma dict_fromkeys_elem_of (xs : list str) (x : str) :
  x ∈ handlers.dict_fromkeys xs <-> x ∈ xs.
Proof.
  induction xs as [|y xs IH]; simpl; [done|].
  rewrite !elem_of_cons, list_elem_of_filter, IH.
  destruct (decide (x = y)); tauto.
Qed.

Lemma dict_fromkeys_NoDup (xs : list str) : NoDup (handlers.dict_fromkeys xs).
Proof.
  induction xs as [|y xs IH]; simpl; [constructor|].
  constructor; [|by apply NoDup_filter].
  rewrite list_elem_of_filter. by intros [H _].
Qed.

Lemma dict_fromkeys_id (xs : list str) : NoDup xs -> handlers.dict_fromkeys xs = xs.
Proof.
  induction 1 as [|y xs Hy _ IH]; simpl; [done|].
  rewrite IH. f_equal.
  clear IH. induction xs as [|z xs IH]; [done|].
  rewrite filter_cons. apply not_elem_of_cons in Hy as [Hne Hy].
  case_decide; [by rewrite IH | congruence].
Qed.

Lemma AssociationType_value_inj (a b : AssociationType) :
  AssociationType_value a = AssociationType_value b -> a = b.
Proof. by destruct a, b. Qed.

Lemma words_of_elem_of (t : AssociationType) (r : list WordAssociation) (x : str) :
  x ∈ handlers.words_of t r <->
  exists item, item ∈ r /\ wa_word item = x /\ wa_type item = t.
Proof.
  unfold handlers.words_of.
  rewrite dict_fromkeys_elem_of, list_elem_of_fmap.
  split.
  - intros (item & -> & Hin). apply list_elem_of_filter in Hin as [Hv Hin].
    exists item. eauto using AssociationType_value_inj.
  - intros (item & Hin & <- & <-). exists item. split; [done|].
    by apply list_elem_of_filter.
Qed.

Lemma words_of_facts (l : list WordAssociation) :
  l <> [] ->
  NoDup (handlers.words_of SYNONYM l) /\ NoDup (handlers.words_of ANTONYM l) /\
  (handlers.words_of SYNONYM l <> [] \/ handlers.words_of ANTONYM l <> []) /\
  (forall t,
     NoDup (map wa_word (filter (λ item, AssociationType_value (wa_type item) =
                                         AssociationType_value t) l)) ->
     handlers.words_of t l =
       map wa_word (filter (λ item, AssociationType_value (wa_type item) =
                                    AssociationType_value t) l)).
Proof.
  intros Hne.
  split; [apply dict_fromkeys_NoDup|]. split; [apply dict_fromkeys_NoDup|].
  split; [|intros t; apply dict_fromkeys_id].
  destruct l as [|[x t] l]; [done|].
  assert (Hin : x ∈ handlers.words_of t ({| wa_word := x; wa_type := t |} :: l)).
  { apply words_of_elem_of. eexists. split; [by left | done]. }
  destruct t; [left | right]; intros Hnil; rewrite Hnil in Hin;
    by apply elem_of_nil in Hin.
Qed.

(** X17.  What the bot lists.  When the bot answers with lists, the word
    shown is the stripped text, neither list repeats a word, at least one of
    them is non-empty, and the synonyms (antonyms) listed are exactly the
    words the service returned with that type.  Either list, when the
    service returned its words without repetition, is shown as it is: the
    same words in the same order. *)
Theorem bot_lists_have_no_duplicates
    (env : Env) (text : str) (w : World) (word : str) (syns ants : list str) :
  fst (handlers.analyze_message_text env text w) = inr (handlers.Found word syns ants) ->
  word = strip text /\
  NoDup syns /\ NoDup ants /\ (syns <> [] \/ ants <> []) /\
  exists r l,
    fst (analyze_word env (strip text) (py "telegram") w) = inr r /\
    result r = Some l /\
    (forall x, x ∈ syns <-> exists item, item ∈ l /\ wa_word item = x /\ wa_type item = SYNONYM) /\
    (forall x, x ∈ ants <-> exists item, item ∈ l /\ wa_word item = x /\ wa_type item = ANTONYM) /\
    (NoDup (map wa_word (filter (λ item, AssociationType_value (wa_type item) =
                                         AssociationType_value SYNONYM) l)) ->
     syns = map wa_word (filter (λ item, AssociationType_value (wa_type item) =
                                         AssociationType_value SYNONYM) l)) /\
    (NoDup (map wa_word (filter (λ item, AssociationType_value (wa_type item) =
                                         AssociationType_value ANTONYM) l)) ->
     ants = map wa_word (filter (λ item, AssociationType_value (wa_type item) =
                                         AssociationType_value ANTONYM) l)).
Proof.
  unfold handlers.analyze_message_text.
  destruct (negb (WordValidator.is_cyrillic (strip text))); [done|].
  destruct (50 <? length (strip text))%nat; [done|].
  unfold try_except, mbind, M_bind.
  destruct (analyze_word env (strip text) (py "telegram") w) as [[e|r] w'] eqn:Ha; simpl.
  { by rewrite isinstance_Exception. }
  destruct (status r); try done;
    (destruct (result r) as [[|a l]|] eqn:Hres; simpl; try done;
     intros [= <- <- <-];
     destruct (words_of_facts (a :: l)) as (H1 & H2 & H3 & H4); [done|];
     split; [done|]; split; [exact H1|]; split; [exact H2|]; split; [exact H3|];
     exists r, (a :: l);
     split; [done|]; split; [done|];
     split; [intros x; apply words_of_elem_of|];
     split; [intros x; apply words_of_elem_of|];
     split; [exact (H4 SYNONYM) | exact (H4 ANTONYM)]).
Qed.

Lemma bot_lists_witness :
  py "счастье" = strip (py " счастье") /\
  NoDup (synonyms happiness) /\ NoDup (antonyms happiness) /\
  (synonyms happiness <> [] \/ antonyms happiness <> []) /\
  exists r l,
    fst (analyze_word (quiet sample_chain) (strip (py " счастье")) (py "telegram")
           initial_world) = inr r /\
    result r = Some l /\
    (forall x, x ∈ synonyms happiness <->
       exists item, item ∈ l /\ wa_word item = x /\ wa_type item = SYNONYM) /\
    (forall x, x ∈ antonyms happiness <->
       exists item, item ∈ l /\ wa_word item = x /\ wa_type item = ANTONYM) /\
    (NoDup (map wa_word (filter (λ item, AssociationType_value (wa_type item) =
                                         AssociationType_value SYNONYM) l)) ->
     synonyms happiness =
       map wa_word (filter (λ item, AssociationType_value (wa_type item) =
                                    AssociationType_value SYNONYM) l)) /\
    (NoDup (map wa_word (filter (λ item, AssociationType_value (wa_type item) =
                                         AssociationType_value ANTONYM) l)) ->
     antonyms happiness =
       map wa_word (filter (λ item, AssociationType_value (wa_type item) =
                                    AssociationType_value ANTONYM) l)).
Proof.
  apply (bot_lists_have_no_duplicates (quiet sample_chain) (py " счастье") initial_world).
  reflexivity.
Defined.

(** X18.  What the HTTP channels answer.  The API turns an invalid text
    down with a [ValueError] and leaves the world alone; otherwise its
    response carries the normal form of the text as [original_text], and is
    FAILED with no result or COMPLETED with no error, as the service
    answered.  The web form always shows the text as it was typed; it shows
    a status exactly when the text was accepted, and then result, error and
    status are those of the service. *)
Theorem http_answers (env : Env) (text : str) (w : World) :
  match linguistic.analyze_text env text w with
  | (inl e, w') =>
      WordValidator.is_cyrillic text = false /\ w' = w /\ exc_type e = ValueError
  | (inr response, w') =>
      WordValidator.is_cyrillic text = true /\
      linguistic.lr_original_text response = normalize text /\
      exists r, analyze_word env (lower (strip text)) (py "api") w = (inr r, w') /\
        ((status r = FAILED /\ linguistic.lr_status response = FAILED /\
          linguistic.lr_result response = None /\
          linguistic.lr_error response = error r) \/
         (status r = COMPLETED /\ linguistic.lr_status response = COMPLETED /\
          linguistic.lr_result response = result r /\
          linguistic.lr_error response = None))
  end /\
  exists context w',
    web.analyze_web env text w = (inr context, w') /\
    web.ctx_original_text context = text /\
    if WordValidator.is_cyrillic text then
      exists r, analyze_word env text (py "web") w = (inr r, w') /\
        web.ctx_status context = Some (status r) /\
        web.ctx_result context = result r /\ web.ctx_error context = error r
    else
      w' = w /\ web.ctx_status context = None /\ web.ctx_result context = None /\
      exists m, web.ctx_error context = Some m /\ m <> [].
Proof.
  split.
  - unfold linguistic.analyze_text, WordValidator.validate_word, mbind, M_bind.
    destruct (WordValidator.is_cyrillic text); simpl; [|done].
    destruct (answer_shape_total env (lower (strip text)) (py "api") w) as (r & w' & Ha & Hs).
    rewrite Ha. destruct Hs as [Hs | Hs]; rewrite Hs; simpl; eauto 10.
  - unfold web.analyze_web, mbind, M_bind.
    destruct (WordValidator.is_cyrillic text); simpl.
    + destruct (answer_shape_total env text (py "web") w) as (r & w' & Ha & _).
      rewrite Ha. simpl. eauto 10.
    + do 2 eexists. split; [done|]. simpl. repeat split; eauto.
Qed.

End Replies.
